(** * Hot-restart parent: the request handlers of [HotRestartingParent]

    A shallow embedding of the parent side of the hot-restart protocol: the
    envelope dispatch of [HotRestartingParent::onSocketEvent] and the
    operations of [HotRestartingParent::Internal].  Protobuf messages are records and
    inductive types, the Connection Registry [handlers_] is a finite map
    keyed by strings, and the calls made on collaborators (the transport,
    the owning server, the worker dispatchers, the process) are recorded
    as a trace of effects. *)

From stdpp Require Import gmap strings list fin_maps.

#[local] Set Warnings "-clear-no-such-hyp".

(** ** Protobuf messages ([envoy::HotRestartMessage]) *)

(** [HotRestartMessage.Reply.SocketInfo]: [buffer] is set only when the
    captured read buffer is not empty. *)
Record SocketInfo := {
  si_fd : Z;
  si_buffer : option string;
}.

Record PassConnectionSocketReply := {
  sockets : list SocketInfo;
  has_more_fd : bool;
}.

Record PassConnectionDataReply := {
  connection_id : string;
  connection_data : option string;
}.

Record ShutdownAdminReply := {
  original_start_time_unix_seconds : N;
  enable_reuse_port_default : bool;
}.

Record Span := {
  span_first : N;
  span_last : N;
}.

(** [HotRestartMessage.Reply.Stats]; the three maps are protobuf maps keyed
    by the metric's full name. *)
Record Stats := {
  stats_gauges : gmap string N;
  stats_counter_deltas : gmap string N;
  stats_dynamics : gmap string (list Span);
  stats_memory_allocated : N;
  stats_num_connections : N;
}.

Definition empty_stats : Stats :=
  {| stats_gauges := ∅; stats_counter_deltas := ∅; stats_dynamics := ∅;
     stats_memory_allocated := 0; stats_num_connections := 0 |}.

(** The [reply] oneof. *)
Inductive Reply :=
| ReplyShutdownAdmin (r : ShutdownAdminReply)
| ReplyPassListenSocket (fd : Z)
| ReplyPassConnectionSocket (r : PassConnectionSocketReply)
| ReplyPassConnectionData (r : PassConnectionDataReply)
| ReplyStats (r : Stats)
| REPLY_NOT_SET.

(** The [request] oneof; [REQUEST_NOT_SET] is what [request_case()] returns
    for a request whose operation this build does not know. *)
Inductive Request :=
| kShutdownAdmin
| kPassListenSocket (address : string) (worker_index : N)
| kPassConnectionSocket
| kPassConnectionData (connection_id : string)
| kStats
| kDrainListeners
| kTerminate
| REQUEST_NOT_SET.

(** The [requestreply] oneof. *)
Inductive RequestReply :=
| kRequest (r : Request)
| kReply (r : Reply)
| REQUESTREPLY_NOT_SET.

Record HotRestartMessage := {
  requestreply : RequestReply;
  didnt_recognize_your_last_message : bool;
}.

(** A default-constructed message on which [mutable_reply()] was filled. *)
Definition wrap_reply (r : Reply) : HotRestartMessage :=
  {| requestreply := kReply r; didnt_recognize_your_last_message := false |}.

(** A default-constructed message with only the marker set. *)
Definition didnt_recognize : HotRestartMessage :=
  {| requestreply := REQUESTREPLY_NOT_SET;
     didnt_recognize_your_last_message := true |}.

(** [wrapped_request->request()]: the default instance when the oneof holds
    something else. *)
Definition request (m : HotRestartMessage) : Request :=
  match requestreply m with
  | kRequest r => r
  | _ => REQUEST_NOT_SET
  end.

(** ** Network objects *)

(** [Network::Address::Instance]; equality compares the printed form. *)
Record Address := { asString : string }.

Global Instance Address_eq_dec : EqDecision Address.
Proof. solve_decision. Defined.

Record IoHandle := {
  isOpen : bool;
  fdDoNotUse : Z;
  localAddress : Address;
  peerAddress : Address;
}.

(** [Network::ConnectionImpl]: its handle and the bytes already read into
    its read buffer. *)
Record ConnectionImpl := {
  ioHandle : IoHandle;
  getReadBuffer : string;
}.

(** [ActiveTcpConnection]: [connection_] is [None] when the dynamic cast to
    [ConnectionImpl] yields a null pointer. *)
Record ActiveTcpConnection := {
  connection_ : option ConnectionImpl;
}.

Record ActiveConnections := {
  connections_ : list ActiveTcpConnection;
}.

(** [ActiveTcpListener]: connections grouped by filter chain, in the
    iteration order of the map. *)
Record ActiveTcpListener := {
  connections_by_context_ : list (N * ActiveConnections);
}.

(** [ActiveListenerDetails]: [tcpListener] is [None] for a UDP listener. *)
Record ActiveListenerDetails := {
  tcpListener : option ActiveTcpListener;
}.

(** [ConnectionHandlerImpl] of one worker. *)
Record ConnectionHandlerImpl := {
  getListeners : list (Address * ActiveListenerDetails);
}.

Record ListenSocketFactory := {
  factory_localAddress : Address;
  getListenSocket : N → Z;   (* fd of the listen socket of a worker *)
}.

Record ListenerConfig := {
  listenSocketFactory : ListenSocketFactory;
  bindToPort : bool;
}.

(** ** Stats *)

Section Parent.

(** [Stats::StatName], the symbol-table encoding of a metric name. *)
Context {StatName : Type}.

(** [Network::Utility::resolveUrl]. *)
Variable resolveUrl : string → Address.

(** [IoHandle::read] into an empty buffer, without a length limit: the bytes
    obtained and whether the call succeeded. *)
Variable io_read : IoHandle → string * bool.

Record Gauge := {
  gauge_name : string;
  gauge_used : bool;
  gauge_value : N;
  gauge_statName : StatName;
}.

(** A counter with the increment pending since the last latch. *)
Record Counter := {
  counter_name : string;
  counter_used : bool;
  pending_increment : N;
  counter_statName : StatName;
}.

(** [Counter::latch]: returns the pending increment and resets it. *)
Definition latch (c : Counter) : N * Counter :=
  (pending_increment c,
   {| counter_name := counter_name c; counter_used := counter_used c;
      pending_increment := 0; counter_statName := counter_statName c |}).

(** ** The owning server ([Server::Instance]) as the parent sees it *)
Record Instance := {
  listeners : list ListenerConfig;          (* listenerManager().listeners() *)
  getWorkers : list ConnectionHandlerImpl;  (* one handler per worker *)
  numConnections : N;                       (* listenerManager().numConnections() *)
  concurrency : N;                          (* options().concurrency() *)
  startTimeFirstEpoch : N;
  enableReusePortDefault : bool;
  gauges : list Gauge;                      (* stats().gauges() *)
  counters : list Counter;                  (* stats().counters() *)
  getDynamicSpans : StatName → list (N * N); (* stats().symbolTable() *)
  totalCurrentlyAllocated : N;              (* Memory::Stats *)
}.

Definition set_counters (server : Instance) (cs : list Counter) : Instance :=
  {| listeners := listeners server; getWorkers := getWorkers server;
     numConnections := numConnections server;
     concurrency := concurrency server;
     startTimeFirstEpoch := startTimeFirstEpoch server;
     enableReusePortDefault := enableReusePortDefault server;
     gauges := gauges server; counters := cs;
     getDynamicSpans := getDynamicSpans server;
     totalCurrentlyAllocated := totalCurrentlyAllocated server |}.

(** ** PassListenSocket *)

(** The [for] loop of [getListenSocketsForChild]: the first listener whose
    address matches and that binds to its port ends the loop; the fd is
    overwritten only when the worker index is below the concurrency. *)
Fixpoint listen_socket_loop (ls : list ListenerConfig) (addr : Address)
    (worker_index conc : N) (fd : Z) : Z :=
  match ls with
  | [] => fd
  | listener :: ls' =>
      let socket_factory := listenSocketFactory listener in
      if bool_decide (factory_localAddress socket_factory = addr)
         && bindToPort listener
      then
        if (worker_index <? conc)%N
        then getListenSocket socket_factory worker_index
        else fd
      else listen_socket_loop ls' addr worker_index conc fd
  end.

Definition getListenSocketsForChild (server : Instance)
    (address : string) (worker_index : N) : HotRestartMessage :=
  let addr := resolveUrl address in
  wrap_reply (ReplyPassListenSocket
    (listen_socket_loop (listeners server) addr worker_index
       (concurrency server) (-1)%Z)).

(** The fd carried by a message, when it is a PassListenSocket reply. *)
Definition pass_listen_socket_fd (m : HotRestartMessage) : option Z :=
  match requestreply m with
  | kReply (ReplyPassListenSocket fd) => Some fd
  | _ => None
  end.

(** ** PassConnectionSocket *)

Definition MAX_FD_SIZE : Z := 100.

(** The key under which a connection is registered in [handlers_]. *)
Definition connection_key (sc : ConnectionImpl) : string :=
  asString (localAddress (ioHandle sc)) +:+ "_"%string +:+
  asString (peerAddress (ioHandle sc)).

(** The entry appended for a connection: its fd, and its read buffer when
    that is not empty. *)
Definition socket_info_of (sc : ConnectionImpl) : SocketInfo :=
  let fd := fdDoNotUse (ioHandle sc) in
  let buf := getReadBuffer sc in
  {| si_fd := fd;
     si_buffer := if (0 <? String.length buf)%nat then Some buf else None |}.

(** What one run of [getConnectionSocketsForChild] has done so far: the
    reply under construction, the registry, the connections on which
    [readDisable(true)] was run on their worker (in order), and the
    connections for which [add_sockets()] was called (in order). *)
Record ScanState := {
  st_sockets : list SocketInfo;
  st_has_more_fd : bool;
  st_handlers : gmap string IoHandle;
  st_read_disabled : list ConnectionImpl;
  st_added : list ConnectionImpl;
}.

(** Outcome of a loop body: go on with the next element ([continue], or the
    end of the body), or leave the function ([return]). *)
Inductive Control (S : Type) :=
| Next (s : S)
| Return (s : S).
#[global] Arguments Next {S} s.
#[global] Arguments Return {S} s.

Definition control_state {S} (c : Control S) : S :=
  match c with Next s | Return s => s end.

Fixpoint for_each {A S} (body : A → S → Control S) (l : list A) (s : S)
    : Control S :=
  match l with
  | [] => Next s
  | x :: l' =>
      match body x s with
      | Next s' => for_each body l' s'
      | Return s' => Return s'
      end
  end.

(** The body of the innermost loop, for one tracked connection. *)
Definition visit_connection (con : ActiveTcpConnection) (st : ScanState)
    : Control ScanState :=
  match connection_ con with
  | None => Next st
  | Some sc =>
      if negb (isOpen (ioHandle sc)) then Next st
      else
        (* wgcon.Add(); post(readDisable(true); Done()); wgcon.Wait() *)
        let st1 :=
          {| st_sockets := st_sockets st;
             st_has_more_fd := st_has_more_fd st;
             st_handlers := st_handlers st;
             st_read_disabled := st_read_disabled st ++ [sc];
             st_added := st_added st |} in
        let key := connection_key sc in
        match st_handlers st1 !! key with
        | Some _ => Next st1
        | None =>
            let sockets' := st_sockets st1 ++ [socket_info_of sc] in
            let handlers' := <[key := ioHandle sc]> (st_handlers st1) in
            if (MAX_FD_SIZE <=? Z.of_nat (length sockets'))%Z
            then Return
              {| st_sockets := sockets';
                 st_has_more_fd := true;
                 st_handlers := handlers';
                 st_read_disabled := st_read_disabled st1;
                 st_added := st_added st1 ++ [sc] |}
            else Next
              {| st_sockets := sockets';
                 st_has_more_fd := st_has_more_fd st1;
                 st_handlers := handlers';
                 st_read_disabled := st_read_disabled st1;
                 st_added := st_added st1 ++ [sc] |}
        end
  end.

Definition visit_context (cont : N * ActiveConnections) :=
  for_each visit_connection (connections_ (snd cont)).

Definition visit_listener (listenerPair : Address * ActiveListenerDetails)
    (st : ScanState) : Control ScanState :=
  match tcpListener (snd listenerPair) with
  | None => Next st
  | Some tcp => for_each visit_context (connections_by_context_ tcp) st
  end.

Definition visit_worker (con_handler : ConnectionHandlerImpl) :=
  for_each visit_listener (getListeners con_handler).

Definition scan_start (handlers_ : gmap string IoHandle) : ScanState :=
  {| st_sockets := []; st_has_more_fd := false; st_handlers := handlers_;
     st_read_disabled := []; st_added := [] |}.

(** The whole scan; both the early [return] and the one after the loops
    hand back the reply built so far. *)
Definition scan_connections (server : Instance)
    (handlers_ : gmap string IoHandle) : ScanState :=
  control_state (for_each visit_worker (getWorkers server)
                   (scan_start handlers_)).

Definition scan_reply (st : ScanState) : HotRestartMessage :=
  wrap_reply (ReplyPassConnectionSocket
    {| sockets := st_sockets st; has_more_fd := st_has_more_fd st |}).

(** [getConnectionSocketsForChild]: the reply and the registry afterwards. *)
Definition getConnectionSocketsForChild (server : Instance)
    (handlers_ : gmap string IoHandle)
    : HotRestartMessage * gmap string IoHandle :=
  let st := scan_connections server handlers_ in
  (scan_reply st, st_handlers st).

(** ** PassConnectionData *)

Definition getConnectionDataForChild (handlers_ : gmap string IoHandle)
    (id : string) : HotRestartMessage :=
  match handlers_ !! id with
  | None =>
      wrap_reply (ReplyPassConnectionData
        {| connection_id := id; connection_data := None |})
  | Some handler =>
      (* a failed read is only logged; what was read stays in the buffer *)
      let buf := if isOpen handler then fst (io_read handler) else EmptyString in
      wrap_reply (ReplyPassConnectionData
        {| connection_id := id;
           connection_data :=
             if (0 <? String.length buf)%nat then Some buf else None |})
  end.

(** ** Stats export *)

Definition span_proto (span : N * N) : Span :=
  {| span_first := fst span; span_last := snd span |}.

Definition recordDynamics (server : Instance) (stats : Stats)
    (name : string) (stat_name : StatName) : Stats :=
  let spans := getDynamicSpans server stat_name in
  match spans with
  | [] => stats
  | _ :: _ =>
      {| stats_gauges := stats_gauges stats;
         stats_counter_deltas := stats_counter_deltas stats;
         stats_dynamics := <[name := map span_proto spans]> (stats_dynamics stats);
         stats_memory_allocated := stats_memory_allocated stats;
         stats_num_connections := stats_num_connections stats |}
  end.

Definition set_gauge (stats : Stats) (name : string) (v : N) : Stats :=
  {| stats_gauges := <[name := v]> (stats_gauges stats);
     stats_counter_deltas := stats_counter_deltas stats;
     stats_dynamics := stats_dynamics stats;
     stats_memory_allocated := stats_memory_allocated stats;
     stats_num_connections := stats_num_connections stats |}.

Definition set_counter_delta (stats : Stats) (name : string) (v : N) : Stats :=
  {| stats_gauges := stats_gauges stats;
     stats_counter_deltas := <[name := v]> (stats_counter_deltas stats);
     stats_dynamics := stats_dynamics stats;
     stats_memory_allocated := stats_memory_allocated stats;
     stats_num_connections := stats_num_connections stats |}.

(** First loop of [exportStatsToChild]. *)
Fixpoint export_gauges (server : Instance) (gs : list Gauge) (stats : Stats)
    : Stats :=
  match gs with
  | [] => stats
  | gauge :: gs' =>
      if gauge_used gauge then
        let name := gauge_name gauge in
        export_gauges server gs'
          (recordDynamics server (set_gauge stats name (gauge_value gauge))
             name (gauge_statName gauge))
      else export_gauges server gs' stats
  end.

(** Second loop: a used counter is latched, and exported when the latched
    value is positive.  Returns the counters as latching left them. *)
Fixpoint export_counters (server : Instance) (cs : list Counter)
    (stats : Stats) : Stats * list Counter :=
  match cs with
  | [] => (stats, [])
  | counter :: cs' =>
      if counter_used counter then
        let '(latched_value, counter') := latch counter in
        let stats' :=
          if (0 <? latched_value)%N then
            let name := counter_name counter in
            recordDynamics server (set_counter_delta stats name latched_value)
              name (counter_statName counter)
          else stats in
        let '(stats'', rest) := export_counters server cs' stats' in
        (stats'', counter' :: rest)
      else
        let '(stats'', rest) := export_counters server cs' stats in
        (stats'', counter :: rest)
  end.

Definition exportStatsToChild (server : Instance) (stats : Stats)
    : Stats * Instance :=
  let stats1 := export_gauges server (gauges server) stats in
  let '(stats2, counters') := export_counters server (counters server) stats1 in
  ({| stats_gauges := stats_gauges stats2;
      stats_counter_deltas := stats_counter_deltas stats2;
      stats_dynamics := stats_dynamics stats2;
      stats_memory_allocated := totalCurrentlyAllocated server;
      stats_num_connections := numConnections server |},
   set_counters server counters').

(** ** ShutdownAdmin *)

Definition shutdownAdmin (server : Instance) : HotRestartMessage :=
  wrap_reply (ReplyShutdownAdmin
    {| original_start_time_unix_seconds := startTimeFirstEpoch server;
       enable_reuse_port_default := enableReusePortDefault server |}).

(** ** The protocol handler *)

(** Calls on collaborators, in the order they are made. *)
Inductive Effect :=
| SendHotRestartMessage (to : Address) (m : HotRestartMessage)
| ServerShutdownAdmin                  (* server_->shutdownAdmin() *)
| ServerDrainListeners                 (* server_->drainListeners() *)
| ReadDisable (sc : ConnectionImpl)    (* posted to the owning worker *)
| KillSelfSIGTERM.                     (* kill(getpid(), SIGTERM) *)

Record HotRestartingParent := {
  child_address_ : Address;
  server_ : Instance;
  handlers_ : gmap string IoHandle;
}.

Definition with_handlers (p : HotRestartingParent)
    (h : gmap string IoHandle) : HotRestartingParent :=
  {| child_address_ := child_address_ p; server_ := server_ p;
     handlers_ := h |}.

Definition with_server (p : HotRestartingParent) (s : Instance)
    : HotRestartingParent :=
  {| child_address_ := child_address_ p; server_ := s;
     handlers_ := handlers_ p |}.

(** One iteration of the [while] loop of [onSocketEvent]. *)
Definition handle_message (wrapped_request : HotRestartMessage)
    (p : HotRestartingParent) : HotRestartingParent * list Effect :=
  match requestreply wrapped_request with
  | kReply _ =>
      (p, [SendHotRestartMessage (child_address_ p) didnt_recognize])
  | _ =>
      match request wrapped_request with
      | kShutdownAdmin =>
          (p, [ServerShutdownAdmin;
               SendHotRestartMessage (child_address_ p)
                 (shutdownAdmin (server_ p))])
      | kPassListenSocket address worker_index =>
          (p, [SendHotRestartMessage (child_address_ p)
                 (getListenSocketsForChild (server_ p) address worker_index)])
      | kPassConnectionSocket =>
          let st := scan_connections (server_ p) (handlers_ p) in
          (with_handlers p (st_handlers st),
           map ReadDisable (st_read_disabled st) ++
           [SendHotRestartMessage (child_address_ p) (scan_reply st)])
      | kPassConnectionData id =>
          (p, [SendHotRestartMessage (child_address_ p)
                 (getConnectionDataForChild (handlers_ p) id)])
      | kStats =>
          let '(stats, server') :=
            exportStatsToChild (server_ p) empty_stats in
          (with_server p server',
           [SendHotRestartMessage (child_address_ p)
              (wrap_reply (ReplyStats stats))])
      | kDrainListeners => (p, [ServerDrainListeners])
      | kTerminate => (p, [KillSelfSIGTERM])
      | REQUEST_NOT_SET =>
          (p, [SendHotRestartMessage (child_address_ p) didnt_recognize])
      end
  end.

(** [onSocketEvent]: every message the non-blocking receive hands over is
    handled in turn. *)
Fixpoint onSocketEvent (received : list HotRestartMessage)
    (p : HotRestartingParent) : HotRestartingParent * list Effect :=
  match received with
  | [] => (p, [])
  | m :: rest =>
      let '(p1, effs1) := handle_message m p in
      let '(p2, effs2) := onSocketEvent rest p1 in
      (p2, effs1 ++ effs2)
  end.

(** ** Notions used in the statements *)

(** What makes a listener the one whose socket is handed over. *)
Definition listener_matches (addr : Address) (listener : ListenerConfig)
    : Prop :=
  factory_localAddress (listenSocketFactory listener) = addr ∧
  bindToPort listener = true.

(** The envelopes the parent does not recognize: a reply, or a request with
    no known operation set. *)
Definition unrecognized (m : HotRestartMessage) : Prop :=
  (∃ r, requestreply m = kReply r) ∨
  requestreply m = kRequest REQUEST_NOT_SET.

(** The tracked connections of a listener, a worker and the server, in the
    order the nested loops reach them. *)
Definition listener_connections
    (listenerPair : Address * ActiveListenerDetails)
    : list ActiveTcpConnection :=
  match tcpListener (snd listenerPair) with
  | None => []
  | Some tcp =>
      flat_map (λ cont : N * ActiveConnections, connections_ (snd cont))
        (connections_by_context_ tcp)
  end.

Definition worker_connections (con_handler : ConnectionHandlerImpl)
    : list ActiveTcpConnection :=
  flat_map listener_connections (getListeners con_handler).

Definition tracked_connections (server : Instance)
    : list ActiveTcpConnection :=
  flat_map worker_connections (getWorkers server).

(** The connections a scan without a batch limit would export, in order:
    those that are [ConnectionImpl]s with an open handle and whose key is
    neither registered already nor registered earlier in the same scan. *)
Fixpoint eligible (registered : gset string)
    (cons : list ActiveTcpConnection) : list ConnectionImpl :=
  match cons with
  | [] => []
  | con :: rest =>
      match connection_ con with
      | None => eligible registered rest
      | Some sc =>
          if isOpen (ioHandle sc)
             && bool_decide (connection_key sc ∉ registered)
          then sc :: eligible ({[connection_key sc]} ∪ registered) rest
          else eligible registered rest
      end
  end.

(** [handlers_.insert] for a connection whose key is not registered. *)
Definition register (handlers : gmap string IoHandle) (sc : ConnectionImpl)
    : gmap string IoHandle :=
  <[connection_key sc := ioHandle sc]> handlers.

Definition register_all (handlers : gmap string IoHandle)
    (scs : list ConnectionImpl) : gmap string IoHandle :=
  foldl register handlers scs.

(** The keys of a list of connections, as a set. *)
Definition keys_of (scs : list ConnectionImpl) : gset string :=
  list_to_set (map connection_key scs).

(** [MAX_FD_SIZE] as a number of list elements. *)
Definition batch_size : nat := Z.to_nat MAX_FD_SIZE.

Definition is_return {S} (c : Control S) : bool :=
  match c with Return _ => true | Next _ => false end.

(** The state after the rendezvous that disables reads on [sc]. *)
Definition disable_read (st : ScanState) (sc : ConnectionImpl) : ScanState :=
  {| st_sockets := st_sockets st;
     st_has_more_fd := st_has_more_fd st;
     st_handlers := st_handlers st;
     st_read_disabled := st_read_disabled st ++ [sc];
     st_added := st_added st |}.

(** The state after [sc] went through the whole loop body: reads disabled,
    entry appended, key registered, and the flag as given. *)
Definition add_socket (st : ScanState) (sc : ConnectionImpl) (more : bool)
    : ScanState :=
  {| st_sockets := st_sockets st ++ [socket_info_of sc];
     st_has_more_fd := more;
     st_handlers := register (st_handlers st) sc;
     st_read_disabled := st_read_disabled st ++ [sc];
     st_added := st_added st ++ [sc] |}.

(** The PassConnectionSocket payload of a message. *)
Definition pass_connection_socket (m : HotRestartMessage)
    : option PassConnectionSocketReply :=
  match requestreply m with
  | kReply (ReplyPassConnectionSocket r) => Some r
  | _ => None
  end.

(** A sequence of PassConnectionSocket requests; the connections the
    server tracks may differ from one request to the next. *)
Fixpoint run_scans (servers : list Instance)
    (handlers : gmap string IoHandle) : list ScanState :=
  match servers with
  | [] => []
  | server :: rest =>
      let st := scan_connections server handlers in
      st :: run_scans rest (st_handlers st)
  end.

(** A counter is exported when it is used and its latched value is
    positive. *)
Definition counter_exported (c : Counter) : bool :=
  counter_used c && (0 <? fst (latch c))%N.

(** The metrics written to the reply, with their [StatName], in order. *)
Definition exported_gauges (gs : list Gauge) : list (string * StatName) :=
  flat_map (λ g, if gauge_used g
                 then [(gauge_name g, gauge_statName g)] else []) gs.

Definition exported_counters (cs : list Counter) : list (string * StatName) :=
  flat_map (λ c, if counter_exported c
                 then [(counter_name c, counter_statName c)] else []) cs.

Definition exported_metrics (server : Instance) : list (string * StatName) :=
  exported_gauges (gauges server) ++ exported_counters (counters server).

(** What [recordDynamics] does to the map of dynamic spans. *)
Definition record_span (server : Instance) (d : gmap string (list Span))
    (metric : string * StatName) : gmap string (list Span) :=
  match getDynamicSpans server (snd metric) with
  | [] => d
  | _ :: _ =>
      <[fst metric := map span_proto (getDynamicSpans server (snd metric))]> d
  end.

(** The stats after the counter loop, without the latched counters. *)
Definition export_counter (server : Instance) (stats : Stats) (c : Counter)
    : Stats :=
  if counter_exported c
  then recordDynamics server
         (set_counter_delta stats (counter_name c) (fst (latch c)))
         (counter_name c) (counter_statName c)
  else stats.

(** ** DisableConnections *)

(** [Network::Connection::State]. *)
Inductive ConnectionState := StateOpen | StateClosing | StateClosed.

(** [Connection::state()]. *)
Variable state : ConnectionImpl → ConnectionState.

(** The calls [disableConnections] makes, in order. *)
Inductive DisableEffect :=
| DisableRead (sc : ConnectionImpl)      (* sc->readDisable(true) *)
| PauseListening (listener : Address).   (* tcp_listener.pauseListening() *)

(** The body of the innermost loop of [disableConnections]. *)
Definition disable_connection (con : ActiveTcpConnection)
    : list DisableEffect :=
  match connection_ con with
  | None => []
  | Some sc =>
      match state sc with
      | StateOpen => if isOpen (ioHandle sc) then [DisableRead sc] else []
      | _ => []
      end
  end.

(** One listener of a worker: a UDP listener is passed over; a TCP listener
    has its connections visited and is paused afterwards. *)
Definition disable_listener (listenerPair : Address * ActiveListenerDetails)
    : list DisableEffect :=
  match tcpListener (snd listenerPair) with
  | None => []
  | Some tcp_listener =>
      flat_map (λ cont : N * ActiveConnections,
                  flat_map disable_connection (connections_ (snd cont)))
        (connections_by_context_ tcp_listener)
      ++ [PauseListening (fst listenerPair)]
  end.

Definition disableConnections (server : Instance) : list DisableEffect :=
  flat_map (λ con_handler, flat_map disable_listener (getListeners con_handler))
    (getWorkers server).

(** ** Further notions used in the statements *)

(** Whether a connection is in the state in which [disableConnections]
    stops reading from it. *)
Definition in_state_open (sc : ConnectionImpl) : bool :=
  match state sc with StateOpen => true | _ => false end.

(** The messages sent, with their destination, in order. *)
Definition sent_messages (effs : list Effect)
    : list (Address * HotRestartMessage) :=
  flat_map (λ e, match e with
                 | SendHotRestartMessage to m => [(to, m)]
                 | _ => []
                 end) effs.

Definition count_if {A} (f : A → bool) (l : list A) : nat :=
  length (List.filter f l).

(** Tests on the operation of a request envelope; false for an envelope
    that is not a request. *)
Definition request_is (f : Request → bool) (m : HotRestartMessage) : bool :=
  match requestreply m with
  | kRequest r => f r
  | _ => false
  end.

Definition is_shutdown_admin (r : Request) : bool :=
  match r with kShutdownAdmin => true | _ => false end.



Definition is_drain_listeners (r : Request) : bool :=
  match r with kDrainListeners => true | _ => false end.

Definition is_terminate (r : Request) : bool :=
  match r with kTerminate => true | _ => false end.

(** A request with one of the seven operations set. *)
Definition known_request (m : HotRestartMessage) : bool :=
  request_is (λ r, match r with REQUEST_NOT_SET => false | _ => true end) m.

(** The requests that are not answered. *)
Definition fire_and_forget (m : HotRestartMessage) : bool :=
  request_is (λ r, is_drain_listeners r || is_terminate r) m.

Definition is_server_shutdown_admin (e : Effect) : bool :=
  match e with ServerShutdownAdmin => true | _ => false end.

Definition is_server_drain_listeners (e : Effect) : bool :=
  match e with ServerDrainListeners => true | _ => false end.

Definition is_kill (e : Effect) : bool :=
  match e with KillSelfSIGTERM => true | _ => false end.

(** The tracked connections that are [ConnectionImpl]s with an open handle,
    in order. *)
Definition open_connections (cons : list ActiveTcpConnection)
    : list ConnectionImpl :=
  flat_map (λ con, match connection_ con with
                   | Some sc => if isOpen (ioHandle sc) then [sc] else []
                   | None => []
                   end) cons.


(** What the counter loop of the stats export leaves of a counter. *)
Definition latch_if_used (c : Counter) : Counter :=
  if counter_used c then snd (latch c) else c.

(** The connections [disableConnections] stops reading from, and the
    listeners it pauses. *)
Definition disabled_reads (effs : list DisableEffect) : list ConnectionImpl :=
  flat_map (λ e, match e with DisableRead sc => [sc] | _ => [] end) effs.

Definition paused_listeners (effs : list DisableEffect) : list Address :=
  flat_map (λ e, match e with PauseListening a => [a] | _ => [] end) effs.

(** The addresses of the TCP listeners of all workers, in order. *)
Definition tcp_listeners (server : Instance) : list Address :=
  flat_map (λ con_handler,
              flat_map (λ listenerPair : Address * ActiveListenerDetails,
                          match tcpListener (snd listenerPair) with
                          | Some _ => [fst listenerPair]
                          | None => []
                          end) (getListeners con_handler))
    (getWorkers server).

(** The PassConnectionData payload of a message. *)
Definition pass_connection_data (m : HotRestartMessage)
    : option PassConnectionDataReply :=
  match requestreply m with
  | kReply (ReplyPassConnectionData r) => Some r
  | _ => None
  end.


End Parent.

(** ** A concrete server *)

Definition demo_resolve (url : string) : Address := {| asString := url |}.

Definition demo_read (handler : IoHandle) : string * bool :=
  (EmptyString, true).

Definition demo_peer (n : nat) : string :=
  String (Ascii.ascii_of_nat (48 + n / 10))
    (String (Ascii.ascii_of_nat (48 + n mod 10)) ":4000").

Definition demo_impl (n : nat) (open : bool) (buf : string) : ConnectionImpl :=
  {| ioHandle :=
       {| isOpen := open; fdDoNotUse := Z.of_nat n + 10;
          localAddress := {| asString := "10.0.0.1:80" |};
          peerAddress := {| asString := demo_peer n |} |};
     getReadBuffer := buf |}.

Definition demo_connection (n : nat) : ActiveTcpConnection :=
  {| connection_ := Some (demo_impl n true EmptyString) |}.

Definition demo_listener : ListenerConfig :=
  {| listenSocketFactory :=
       {| factory_localAddress := {| asString := "tcp://10.0.0.1:80" |};
          getListenSocket := λ worker_index, (7 + Z.of_N worker_index)%Z |};
     bindToPort := true |}.

(** Metrics: the stat name is [true] for a name with one dynamic part. *)
Definition demo_gauges : list (@Gauge bool) :=
  [ {| gauge_name := "cluster.web.active"; gauge_used := true;
       gauge_value := 3; gauge_statName := true |};
    {| gauge_name := "server.idle"; gauge_used := false;
       gauge_value := 0; gauge_statName := false |} ].

Definition demo_counters : list (@Counter bool) :=
  [ {| counter_name := "http.rq_total"; counter_used := true;
       pending_increment := 5; counter_statName := false |};
    {| counter_name := "http.rq_error"; counter_used := true;
       pending_increment := 0; counter_statName := false |};
    {| counter_name := "http.rq_reset"; counter_used := false;
       pending_increment := 0; counter_statName := true |} ].

(** A server with two workers; the first has a UDP listener and a TCP
    listener with the given connections. *)
Definition demo_server (cons : list ActiveTcpConnection) : @Instance bool :=
  {| listeners := [demo_listener];
     getWorkers :=
       [ {| getListeners :=
              [ ({| asString := "10.0.0.1:53" |}, {| tcpListener := None |});
                ({| asString := "10.0.0.1:80" |},
                 {| tcpListener :=
                      Some {| connections_by_context_ :=
                                [(0%N, {| connections_ := cons |})] |} |}) ] |};
         {| getListeners := [] |} ];
     numConnections := N.of_nat (length cons);
     concurrency := 2;
     startTimeFirstEpoch := 1700000000;
     enableReusePortDefault := true;
     gauges := demo_gauges;
     counters := demo_counters;
     getDynamicSpans := λ stat_name : bool,
       if stat_name then [(8%N, 10%N)] else [];
     totalCurrentlyAllocated := 4096 |}.

Definition demo_parent (cons : list ActiveTcpConnection)
    : @HotRestartingParent bool :=
  {| child_address_ := {| asString := "@envoy_domain_socket_child_1" |};
     server_ := demo_server cons;
     handlers_ := ∅ |}.

Definition demo_request (r : Request) : HotRestartMessage :=
  {| requestreply := kRequest r;
     didnt_recognize_your_last_message := false |}.

(** A read that fails after it obtained some bytes. *)
Definition demo_read_late (handler : IoHandle) : string * bool :=
  ("late"%string, false).

(** A registry that holds one connection, closed since. *)
Definition demo_registered : gmap string IoHandle :=
  {[ connection_key (demo_impl 7 false EmptyString)
       := ioHandle (demo_impl 7 false EmptyString) ]}.

Definition demo_parent_registered : @HotRestartingParent bool :=
  {| child_address_ := {| asString := "@envoy_domain_socket_child_1" |};
     server_ := demo_server [demo_connection 0; demo_connection 1];
     handlers_ := demo_registered |}.

(** * Properties *)

Section Dispatch.

Context {StatName : Type}.
Variable resolveUrl : string → Address.
Variable io_read : IoHandle → string * bool.

Implicit Types (server : @Instance StatName) (p : @HotRestartingParent StatName).

(** ** PassListenSocket *)

Lemma listen_socket_loop_changed ls addr worker_index conc fd :
  listen_socket_loop ls addr worker_index conc fd ≠ fd →
  (∃ listener, listener ∈ ls ∧ listener_matches addr listener) ∧
  (worker_index < conc)%N.
Proof.
  induction ls as [|listener ls IH]; simpl; [done|].
  destruct (bool_decide (factory_localAddress (listenSocketFactory listener)
                         = addr)) eqn:Haddr; simpl.
  - destruct (bindToPort listener) eqn:Hbind; simpl.
    + destruct (N.ltb_spec worker_index conc) as [Hlt|Hge]; [|done].
      intros _. split; [|done].
      exists listener. split; [left|].
      split; [by apply bool_decide_eq_true in Haddr | done].
    + intros H. destruct (IH H) as [(l & Hl & Hm) Hlt].
      split; [|done]. exists l. split; [by right | done].
  - intros H. destruct (IH H) as [(l & Hl & Hm) Hlt].
    split; [|done]. exists l. split; [by right | done].
Qed.

(** C3: the PassListenSocket reply carries fd = -1 unless a configured
    listener has the resolved address and binds to its port and the worker
    index is below the configured concurrency; so a worker index at or above
    the concurrency gives -1 whatever the address, and so does the absence
    of a matching listener. *)
Theorem pass_listen_socket_fd_unless (server : @Instance StatName) (address : string)
    (worker_index : N) :
  ∃ fd : Z,
    pass_listen_socket_fd
      (getListenSocketsForChild resolveUrl server address worker_index) = Some fd ∧
    (fd ≠ (-1)%Z →
       (∃ listener, listener ∈ listeners server ∧
          listener_matches (resolveUrl address) listener) ∧
       (worker_index < concurrency server)%N) ∧
    ((concurrency server ≤ worker_index)%N → fd = (-1)%Z) ∧
    ((∀ listener, listener ∈ listeners server →
        ¬ listener_matches (resolveUrl address) listener) → fd = (-1)%Z).
Proof.
  eexists. split; [reflexivity|].
  set (fd := listen_socket_loop _ _ _ _ _).
  assert (Hfd : fd ≠ (-1)%Z →
    (∃ listener, listener ∈ listeners server ∧
       listener_matches (resolveUrl address) listener) ∧
    (worker_index < concurrency server)%N)
    by apply listen_socket_loop_changed.
  split; [done|]. split.
  - intros Hge. destruct (decide (fd = (-1)%Z)) as [|Hne]; [done|].
    destruct (Hfd Hne) as [_ Hlt]. lia.
  - intros Hnone. destruct (decide (fd = (-1)%Z)) as [|Hne]; [done|].
    destruct (Hfd Hne) as [(l & Hl & Hm) _]. by destruct (Hnone l Hl).
Qed.

(** ** Dispatch *)

(** C4: a Reply envelope, or a Request with an unknown operation, is
    answered with the marker message sent to the child's address; nothing
    else happens (no operation runs, the parent's state is unchanged, no
    termination signal), and the receive loop goes on with the messages
    that follow. *)
Theorem unrecognized_message_marker (m : HotRestartMessage)
    (p : @HotRestartingParent StatName) (rest : list HotRestartMessage) :
  unrecognized m →
  handle_message resolveUrl io_read m p =
    (p, [SendHotRestartMessage (child_address_ p) didnt_recognize]) ∧
  didnt_recognize_your_last_message didnt_recognize = true ∧
  (KillSelfSIGTERM ∉ snd (handle_message resolveUrl io_read m p)) ∧
  onSocketEvent resolveUrl io_read (m :: rest) p =
    (fst (onSocketEvent resolveUrl io_read rest p),
     SendHotRestartMessage (child_address_ p) didnt_recognize
       :: snd (onSocketEvent resolveUrl io_read rest p)).
Proof.
  intros Hm.
  assert (Hh : handle_message resolveUrl io_read m p =
    (p, [SendHotRestartMessage (child_address_ p) didnt_recognize])).
  { unfold handle_message, request.
    destruct Hm as [[r Hr] | Hr]; by rewrite Hr. }
  split; [done|]. split; [done|]. split.
  - rewrite Hh. simpl. intros H%list_elem_of_singleton. discriminate H.
  - simpl. rewrite Hh. by destruct (onSocketEvent resolveUrl io_read rest p).
Qed.

(** C5: a PassConnectionData request for an identifier that is not a key of
    the registry is answered, as any other, with one reply; it carries the
    identifier and no connection data. *)
Theorem connection_data_unknown_id (p : @HotRestartingParent StatName) (id : string)
    (flag : bool) :
  handlers_ p !! id = None →
  getConnectionDataForChild io_read (handlers_ p) id =
    wrap_reply (ReplyPassConnectionData
      {| connection_id := id; connection_data := None |}) ∧
  handle_message resolveUrl io_read
    {| requestreply := kRequest (kPassConnectionData id);
       didnt_recognize_your_last_message := flag |} p =
    (p, [SendHotRestartMessage (child_address_ p)
           (wrap_reply (ReplyPassConnectionData
              {| connection_id := id; connection_data := None |}))]).
Proof.
  intros Hid. unfold handle_message, getConnectionDataForChild. simpl.
  by rewrite Hid.
Qed.

(** C7, as the code has it: a DrainListeners request makes the parent call
    the server's listener draining and nothing else; no message is sent
    back. *)
Theorem drain_listeners_no_reply (p : @HotRestartingParent StatName) (flag : bool) :
  handle_message resolveUrl io_read
    {| requestreply := kRequest kDrainListeners;
       didnt_recognize_your_last_message := flag |} p =
  (p, [ServerDrainListeners]).
Proof. reflexivity. Qed.

(** C8: a Terminate request produces no reply: the only effect is the
    termination signal the process sends itself, and the handler's state is
    left as it was. *)
Theorem terminate_no_reply (p : @HotRestartingParent StatName) (flag : bool) :
  handle_message resolveUrl io_read
    {| requestreply := kRequest kTerminate;
       didnt_recognize_your_last_message := flag |} p =
  (p, [KillSelfSIGTERM]).
Proof. reflexivity. Qed.

End Dispatch.

(** ** PassConnectionSocket: the scan as one loop over a flat list *)

Section Scan.

Context {StatName : Type}.

Implicit Types (server : @Instance StatName)
  (servers : list (@Instance StatName)).

Lemma for_each_app {A S} (body : A → S → Control S) (l1 l2 : list A) (s : S) :
  for_each body (l1 ++ l2) s =
  match for_each body l1 s with
  | Next s' => for_each body l2 s'
  | Return s' => Return s'
  end.
Proof.
  revert s. induction l1 as [|x l1 IH]; intros s; simpl; [done|].
  destruct (body x s); [apply IH | done].
Qed.

Lemma for_each_flat_map {A B S} (f : A → list B) (body : B → S → Control S)
    (l : list A) (s : S) :
  for_each (λ x, for_each body (f x)) l s = for_each body (flat_map f l) s.
Proof.
  revert s. induction l as [|x l IH]; intros s; simpl; [done|].
  rewrite for_each_app. destruct (for_each body (f x) s); [apply IH | done].
Qed.

Lemma visit_listener_flat listenerPair st :
  visit_listener listenerPair st =
  for_each visit_connection (listener_connections listenerPair) st.
Proof.
  unfold visit_listener, listener_connections.
  destruct (tcpListener (snd listenerPair)) as [tcp|]; [|done].
  apply (for_each_flat_map
           (λ cont : N * ActiveConnections, connections_ (snd cont))).
Qed.

Lemma for_each_ext {A S} (f g : A → S → Control S) (l : list A) (s : S) :
  (∀ x s, f x s = g x s) → for_each f l s = for_each g l s.
Proof.
  intros Hfg. revert s. induction l as [|x l IH]; intros s; simpl; [done|].
  rewrite Hfg. destruct (g x s); [apply IH | done].
Qed.

Lemma visit_worker_flat con_handler st :
  visit_worker con_handler st =
  for_each visit_connection (worker_connections con_handler) st.
Proof.
  unfold visit_worker, worker_connections.
  rewrite <- for_each_flat_map. apply for_each_ext, visit_listener_flat.
Qed.

Lemma scan_connections_flat server handlers :
  scan_connections server handlers =
  control_state (for_each visit_connection (tracked_connections server)
                   (scan_start handlers)).
Proof.
  unfold scan_connections, tracked_connections. f_equal.
  rewrite <- for_each_flat_map. apply for_each_ext, visit_worker_flat.
Qed.

Lemma dom_register handlers sc :
  dom (register handlers sc) = {[connection_key sc]} ∪ dom handlers.
Proof. unfold register. by rewrite dom_insert_L. Qed.

Lemma dom_register_all handlers scs :
  dom (register_all handlers scs) = keys_of scs ∪ dom handlers.
Proof.
  revert handlers. unfold keys_of.
  induction scs as [|sc scs IH]; intros handlers; simpl.
  - set_solver.
  - rewrite IH, dom_register. set_solver.
Qed.

Lemma visit_connection_not_impl con st :
  connection_ con = None → visit_connection con st = Next st.
Proof. unfold visit_connection. by intros ->. Qed.

Lemma visit_connection_closed con sc st :
  connection_ con = Some sc → isOpen (ioHandle sc) = false →
  visit_connection con st = Next st.
Proof. unfold visit_connection. by intros -> ->. Qed.

Lemma visit_connection_registered con sc st :
  connection_ con = Some sc → isOpen (ioHandle sc) = true →
  connection_key sc ∈ dom (st_handlers st) →
  visit_connection con st = Next (disable_read st sc).
Proof.
  unfold visit_connection. intros -> -> [h Hh]%elem_of_dom. simpl.
  by rewrite Hh.
Qed.

Lemma visit_connection_fresh con sc st :
  connection_ con = Some sc → isOpen (ioHandle sc) = true →
  connection_key sc ∉ dom (st_handlers st) →
  visit_connection con st =
    if bool_decide (batch_size ≤ S (length (st_sockets st)))
    then Return (add_socket st sc true)
    else Next (add_socket st sc (st_has_more_fd st)).
Proof.
  unfold visit_connection. intros -> -> Hh%not_elem_of_dom. simpl.
  rewrite Hh, length_app. simpl. unfold batch_size, MAX_FD_SIZE.
  destruct (Z.leb_spec 100 (Z.of_nat (length (st_sockets st) + 1)));
    [rewrite bool_decide_eq_true_2 by lia | rewrite bool_decide_eq_false_2 by lia];
    done.
Qed.

(** The loop from any state whose reply is not full yet: it appends the
    first eligible connections up to the batch size, registers exactly
    those, and returns early with the flag set iff the batch got full. *)
Lemma for_each_visit_connection cons st :
  length (st_sockets st) < batch_size →
  let room := batch_size - length (st_sockets st) in
  let E := eligible (dom (st_handlers st)) cons in
  let r := for_each visit_connection cons st in
  st_sockets (control_state r) =
    st_sockets st ++ map socket_info_of (take room E) ∧
  st_added (control_state r) = st_added st ++ take room E ∧
  st_handlers (control_state r) = register_all (st_handlers st) (take room E) ∧
  st_has_more_fd (control_state r) =
    (if is_return r then true else st_has_more_fd st) ∧
  is_return r = bool_decide (room ≤ length E).
Proof.
  revert st. induction cons as [|con rest IH]; intros st Hlen; cbv zeta.
  { simpl. rewrite take_nil, !app_nil_r. repeat split; try done.
    symmetry. apply bool_decide_eq_false. simpl. lia. }
  cbn [for_each eligible].
  destruct (connection_ con) as [sc|] eqn:Hcon;
    [|rewrite visit_connection_not_impl by done; by apply IH].
  destruct (isOpen (ioHandle sc)) eqn:Hopen;
    [|rewrite (visit_connection_closed con sc) by done; by apply IH].
  destruct (decide (connection_key sc ∈ dom (st_handlers st))) as [Hin|Hnin].
  - rewrite (visit_connection_registered con sc) by done.
    rewrite bool_decide_eq_false_2 by (intros Hn; apply Hn, Hin).
    apply (IH (disable_read st sc)), Hlen.
  - rewrite (visit_connection_fresh con sc) by done.
    rewrite (bool_decide_eq_true_2 (connection_key sc ∉ _)) by done.
    cbn [andb].
    case_bool_decide as Hfull.
    + replace (batch_size - length (st_sockets st)) with 1 by lia.
      simpl. rewrite take_0. repeat split; done.
    + specialize (IH (add_socket st sc (st_has_more_fd st))).
      cbv zeta in IH. cbn [add_socket st_sockets st_handlers st_added
                           st_has_more_fd] in IH.
      rewrite length_app in IH. cbn [length] in IH.
      specialize (IH ltac:(lia)).
      rewrite !dom_register in IH.
      replace (batch_size - length (st_sockets st))
        with (S (batch_size - (length (st_sockets st) + 1))) by lia.
      cbn [take map register_all foldl length].
      destruct IH as (Hs & Ha & Hh & Hm & Hr).
      rewrite Hs, Ha, Hh, Hm, Hr, <- !app_assoc.
      repeat split; try done.
      apply bool_decide_ext. lia.
Qed.

(** One whole scan, from the registry it starts with. *)
Lemma scan_connections_spec server handlers :
  let E := eligible (dom handlers) (tracked_connections server) in
  let st := scan_connections server handlers in
  st_sockets st = map socket_info_of (take batch_size E) ∧
  st_added st = take batch_size E ∧
  st_handlers st = register_all handlers (take batch_size E) ∧
  st_has_more_fd st = bool_decide (batch_size ≤ length E).
Proof.
  cbv zeta. rewrite scan_connections_flat.
  pose proof (for_each_visit_connection (tracked_connections server)
                (scan_start handlers)) as H.
  cbv zeta in H. cbn [scan_start st_sockets st_added st_handlers
                      st_has_more_fd length] in H.
  rewrite Nat.sub_0_r in H.
  destruct (H ltac:(unfold batch_size, MAX_FD_SIZE; lia))
    as (Hs & Ha & Hh & Hm & Hr).
  rewrite Hs, Ha, Hh, Hm, Hr. repeat split; try done.
  by case_bool_decide.
Qed.

(** *** Facts about [eligible] *)

Lemma keys_of_cons sc scs :
  keys_of (sc :: scs) = {[connection_key sc]} ∪ keys_of scs.
Proof. done. Qed.

Lemma elem_of_keys_of k scs :
  k ∈ keys_of scs ↔ ∃ sc, sc ∈ scs ∧ connection_key sc = k.
Proof.
  unfold keys_of. rewrite elem_of_list_to_set, list_elem_of_In, in_map_iff.
  split; intros (sc & H1 & H2); exists sc;
    [by rewrite list_elem_of_In | by rewrite <- list_elem_of_In].
Qed.

Lemma eligible_fresh K cons sc :
  sc ∈ eligible K cons → connection_key sc ∉ K.
Proof.
  revert K. induction cons as [|con rest IH]; intros K; cbn [eligible].
  { by intros ?%elem_of_nil. }
  destruct (connection_ con) as [sc0|]; [|apply IH].
  destruct (isOpen (ioHandle sc0)); cbn [andb]; [|apply IH].
  case_bool_decide as Hk; [|apply IH].
  intros [->|Hin]%elem_of_cons; [done|].
  apply IH in Hin. set_solver.
Qed.

Lemma eligible_NoDup K cons :
  NoDup (map connection_key (eligible K cons)).
Proof.
  revert K. induction cons as [|con rest IH]; intros K; cbn [eligible].
  { constructor. }
  destruct (connection_ con) as [sc0|]; [|apply IH].
  destruct (isOpen (ioHandle sc0)); cbn [andb]; [|apply IH].
  case_bool_decide as Hk; [|apply IH].
  cbn [map]. constructor; [|apply IH].
  intros (sc & Hkey & Hin)%list_elem_of_In%in_map_iff.
  apply list_elem_of_In, eligible_fresh in Hin. set_solver.
Qed.

Lemma eligible_sound K cons sc :
  sc ∈ eligible K cons →
  ∃ con, con ∈ cons ∧ connection_ con = Some sc ∧
         isOpen (ioHandle sc) = true.
Proof.
  revert K. induction cons as [|con rest IH]; intros K; cbn [eligible].
  { by intros ?%elem_of_nil. }
  assert (Hrest : ∀ K', sc ∈ eligible K' rest →
    ∃ con0, con0 ∈ con :: rest ∧ connection_ con0 = Some sc ∧
            isOpen (ioHandle sc) = true).
  { intros K' (con0 & ? & ?)%IH. exists con0. split; [by right | done]. }
  destruct (connection_ con) as [sc0|] eqn:Hcon; [|apply Hrest].
  destruct (isOpen (ioHandle sc0)) eqn:Hopen; cbn [andb]; [|apply Hrest].
  case_bool_decide as Hk; [|apply Hrest].
  intros [->|Hin]%elem_of_cons; [|by eapply Hrest].
  exists con. split; [by left | done].
Qed.

(** After an unlimited scan every open connection is registered. *)
Lemma eligible_covers K cons con sc :
  con ∈ cons → connection_ con = Some sc → isOpen (ioHandle sc) = true →
  connection_key sc ∈ keys_of (eligible K cons) ∪ K.
Proof.
  intros Hin Hcon Hopen. revert K.
  induction cons as [|con0 rest IH]; intros K; [by apply elem_of_nil in Hin|].
  cbn [eligible]. apply elem_of_cons in Hin as [<-|Hin].
  - rewrite Hcon, Hopen. cbn [andb]. case_bool_decide as Hk.
    + rewrite keys_of_cons. set_solver.
    + set_solver.
  - specialize (IH Hin).
    destruct (connection_ con0) as [sc0|]; [|apply IH].
    destruct (isOpen (ioHandle sc0)); cbn [andb]; [|apply IH].
    case_bool_decide as Hk; [|apply IH].
    rewrite keys_of_cons. specialize (IH ({[connection_key sc0]} ∪ K)).
    set_solver.
Qed.

(** Registering the first [k] eligible connections leaves the others
    eligible, in the same order. *)
Lemma eligible_drop K cons k :
  eligible (keys_of (take k (eligible K cons)) ∪ K) cons =
  drop k (eligible K cons).
Proof.
  revert K k. induction cons as [|con rest IH]; intros K k.
  { cbn [eligible]. by rewrite drop_nil. }
  cbn [eligible].
  destruct (connection_ con) as [sc|]; [|apply IH].
  destruct (isOpen (ioHandle sc)); cbn [andb]; [|apply IH].
  destruct (decide (connection_key sc ∈ K)) as [HinK|HninK].
  - rewrite (bool_decide_eq_false_2 (connection_key sc ∉ K)) by set_solver.
    rewrite bool_decide_eq_false_2 by set_solver. apply IH.
  - rewrite (bool_decide_eq_true_2 (connection_key sc ∉ K)) by done.
    destruct k as [|k].
    + cbn [take drop]. replace (keys_of [] ∪ K) with K by set_solver.
      by rewrite bool_decide_eq_true_2.
    + cbn [take drop]. rewrite keys_of_cons.
      rewrite bool_decide_eq_false_2 by set_solver.
      replace ({[connection_key sc]} ∪ keys_of
                 (take k (eligible ({[connection_key sc]} ∪ K) rest)) ∪ K)
        with (keys_of (take k (eligible ({[connection_key sc]} ∪ K) rest))
                ∪ ({[connection_key sc]} ∪ K)) by set_solver.
      apply IH.
Qed.

Lemma take_eligible_NoDup K cons n :
  NoDup (connection_key <$> take n (eligible K cons)).
Proof.
  rewrite fmap_take. eapply sublist_NoDup; [|apply sublist_take].
  apply eligible_NoDup.
Qed.

Lemma take_eligible_fresh K cons n sc :
  sc ∈ take n (eligible K cons) → connection_key sc ∉ K.
Proof. intros Hin. eapply eligible_fresh, subseteq_take, Hin. Qed.

(** ** PassConnectionSocket: the claims *)

(** C1: the reply to a PassConnectionSocket request never holds more than
    [MAX_FD_SIZE] = 100 entries, and when an open connection is still
    unregistered once the reply is built, the reply has its "has more" flag
    set.  The batch is made of the first eligible connections in scan
    order, and a repeated request on the same connections gets the
    connections that follow them (again up to the batch size). *)
Theorem connection_batch_bounded (server : @Instance StatName)
    (handlers : gmap string IoHandle) :
  let first := getConnectionSocketsForChild server handlers in
  let second := getConnectionSocketsForChild server (snd first) in
  let E := eligible (dom handlers) (tracked_connections server) in
  ∃ r1 r2,
    pass_connection_socket (fst first) = Some r1 ∧
    pass_connection_socket (fst second) = Some r2 ∧
    (Z.of_nat (length (sockets r1)) ≤ MAX_FD_SIZE)%Z ∧
    ((∃ con sc, con ∈ tracked_connections server ∧
        connection_ con = Some sc ∧ isOpen (ioHandle sc) = true ∧
        connection_key sc ∉ dom (snd first)) →
     has_more_fd r1 = true) ∧
    sockets r1 = map socket_info_of (take batch_size E) ∧
    sockets r2 = map socket_info_of (take batch_size (drop batch_size E)).
Proof.
  cbv zeta. unfold getConnectionSocketsForChild. cbn [fst snd].
  destruct (scan_connections_spec server handlers) as (Hs & Ha & Hh & Hm).
  set (st := scan_connections server handlers) in *.
  destruct (scan_connections_spec server (st_handlers st)) as (Hs2 & _).
  set (E := eligible (dom handlers) (tracked_connections server)) in *.
  eexists _, _. split; [reflexivity|]. split; [reflexivity|].
  cbn [sockets has_more_fd].
  split; [|split; [|split; [done|]]].
  - rewrite Hs, length_map, length_take.
    unfold batch_size, MAX_FD_SIZE. lia.
  - intros (con & sc & Hin & Hcon & Hopen & Hkey).
    rewrite Hm. apply bool_decide_eq_true.
    destruct (decide (batch_size ≤ length E)) as [|Hlt]; [done|].
    exfalso. apply Hkey. rewrite Hh, dom_register_all.
    rewrite take_ge by lia. by eapply eligible_covers.
  - rewrite Hs2, Hh, dom_register_all. unfold E. by rewrite eligible_drop.
Qed.

Lemma run_scans_added servers handlers :
  NoDup (connection_key <$> flat_map st_added (run_scans servers handlers)) ∧
  ∀ sc, sc ∈ flat_map st_added (run_scans servers handlers) →
        connection_key sc ∉ dom handlers.
Proof.
  revert handlers. induction servers as [|server rest IH]; intros handlers.
  { split; [constructor | by intros sc ?%elem_of_nil]. }
  cbn [run_scans flat_map].
  destruct (scan_connections_spec server handlers) as (_ & Ha & Hh & _).
  set (st := scan_connections server handlers) in *.
  destruct (IH (st_handlers st)) as [IHnd IHfresh].
  assert (Hdom : dom (st_handlers st) = keys_of (st_added st) ∪ dom handlers)
    by (by rewrite Hh, Ha, dom_register_all).
  split.
  - rewrite fmap_app. apply NoDup_app. split; [|split; [|done]].
    + rewrite Ha. apply take_eligible_NoDup.
    + intros k (sc & -> & Hsc)%list_elem_of_fmap
               (sc' & Hk & Hsc')%list_elem_of_fmap.
      apply (IHfresh sc' Hsc'). rewrite <- Hk, Hdom.
      apply elem_of_union_l, elem_of_keys_of. by exists sc.
  - intros sc [Hsc|Hsc]%elem_of_app.
    + rewrite Ha in Hsc. by eapply take_eligible_fresh.
    + specialize (IHfresh sc Hsc). rewrite Hdom in IHfresh. set_solver.
Qed.

Lemma run_scans_sockets servers handlers :
  Forall (λ st, st_sockets st = map socket_info_of (st_added st))
    (run_scans servers handlers).
Proof.
  revert handlers. induction servers as [|server rest IH]; intros handlers;
    cbn [run_scans]; constructor; [|apply IH].
  destruct (scan_connections_spec server handlers) as (Hs & Ha & _).
  by rewrite Hs, Ha.
Qed.

(** C2: over any sequence of PassConnectionSocket requests, the connections
    appended to the replies have pairwise different keys, none of them a key
    the registry held at the start, so no connection is appended twice; the
    entries of each reply are those of the connections appended; and a
    connection whose key is registered is passed over with the reply and the
    registry untouched. *)
Theorem connection_exported_at_most_once (servers : list (@Instance StatName))
    (handlers : gmap string IoHandle) :
  let scans := run_scans servers handlers in
  NoDup (connection_key <$> flat_map st_added scans) ∧
  (∀ sc, sc ∈ flat_map st_added scans → connection_key sc ∉ dom handlers) ∧
  Forall (λ st, st_sockets st = map socket_info_of (st_added st)) scans ∧
  (∀ con sc st,
     connection_ con = Some sc →
     connection_key sc ∈ dom (st_handlers st) →
     ∃ st', visit_connection con st = Next st' ∧
            st_sockets st' = st_sockets st ∧
            st_added st' = st_added st ∧
            st_has_more_fd st' = st_has_more_fd st ∧
            st_handlers st' = st_handlers st).
Proof.
  cbv zeta. destruct (run_scans_added servers handlers) as [Hnd Hfresh].
  split; [done|]. split; [done|]. split; [apply run_scans_sockets|].
  intros con sc st Hcon Hkey.
  destruct (isOpen (ioHandle sc)) eqn:Hopen.
  - rewrite (visit_connection_registered con sc) by done. by eexists.
  - rewrite (visit_connection_closed con sc) by done. by eexists.
Qed.

(** C10: the scan returns as soon as the entry that fills the batch is
    appended, with the flag set, whatever connections follow; so when
    exactly [MAX_FD_SIZE] connections are eligible, the reply holds them all
    and still has the flag set, and the request repeated on the same
    connections gets an empty batch with the flag unset. *)
Theorem full_batch_sets_flag_unchecked (server : @Instance StatName)
    (handlers : gmap string IoHandle) :
  Z.of_nat (length (eligible (dom handlers) (tracked_connections server)))
    = MAX_FD_SIZE →
  let first := getConnectionSocketsForChild server handlers in
  let second := getConnectionSocketsForChild server (snd first) in
  (∃ r1 r2,
     pass_connection_socket (fst first) = Some r1 ∧
     pass_connection_socket (fst second) = Some r2 ∧
     Z.of_nat (length (sockets r1)) = MAX_FD_SIZE ∧
     has_more_fd r1 = true ∧
     sockets r2 = [] ∧
     has_more_fd r2 = false) ∧
  (∀ con sc st rest,
     connection_ con = Some sc → isOpen (ioHandle sc) = true →
     connection_key sc ∉ dom (st_handlers st) →
     (Z.of_nat (length (st_sockets st)) + 1 = MAX_FD_SIZE)%Z →
     for_each visit_connection (con :: rest) st =
       Return (add_socket st sc true)).
Proof.
  intros Hlen. cbv zeta. split.
  - unfold getConnectionSocketsForChild. cbn [fst snd].
    destruct (scan_connections_spec server handlers) as (Hs & Ha & Hh & Hm).
    set (st := scan_connections server handlers) in *.
    destruct (scan_connections_spec server (st_handlers st))
      as (Hs2 & _ & _ & Hm2).
    assert (Hrem : eligible (dom (st_handlers st)) (tracked_connections server)
                   = drop batch_size
                       (eligible (dom handlers) (tracked_connections server)))
      by (by rewrite Hh, dom_register_all, eligible_drop).
    rewrite Hrem in Hs2, Hm2.
    set (E := eligible (dom handlers) (tracked_connections server)) in *.
    assert (HE : length E = batch_size)
      by (unfold batch_size; lia).
    eexists _, _. split; [reflexivity|]. split; [reflexivity|].
    cbn [sockets has_more_fd].
    rewrite Hs, Hm, Hs2, Hm2, length_map, length_take, length_drop, HE.
    rewrite drop_ge by lia. cbn [take map].
    unfold batch_size, MAX_FD_SIZE. repeat split; try done.
  - intros con sc st rest Hcon Hopen Hkey Hfull. cbn [for_each].
    rewrite (visit_connection_fresh con sc) by done.
    rewrite bool_decide_eq_true_2; [done|].
    unfold batch_size. unfold MAX_FD_SIZE in Hfull |- *. lia.
Qed.

End Scan.

(** ** Stats export *)

Section StatsExport.

Context {StatName : Type}.

Implicit Types (server : @Instance StatName) (c : @Counter StatName).

Lemma recordDynamics_gauges server stats name stat_name :
  stats_gauges (recordDynamics server stats name stat_name) =
  stats_gauges stats.
Proof. unfold recordDynamics. by destruct (getDynamicSpans _ _). Qed.

Lemma recordDynamics_counter_deltas server stats name stat_name :
  stats_counter_deltas (recordDynamics server stats name stat_name) =
  stats_counter_deltas stats.
Proof. unfold recordDynamics. by destruct (getDynamicSpans _ _). Qed.

Lemma recordDynamics_dynamics server stats name stat_name :
  stats_dynamics (recordDynamics server stats name stat_name) =
  record_span server (stats_dynamics stats) (name, stat_name).
Proof.
  unfold recordDynamics, record_span. cbn [fst snd].
  by destruct (getDynamicSpans _ _).
Qed.

Lemma export_counters_fst server cs stats :
  fst (export_counters server cs stats) =
  foldl (export_counter server) stats cs.
Proof.
  revert stats. induction cs as [|c cs IH]; intros stats; [done|].
  cbn [export_counters foldl]. unfold export_counter at 2, counter_exported.
  destruct (counter_used c); cbn [andb latch fst].
  - destruct (export_counters server cs _) as [s r] eqn:Hrec.
    cbn [fst]. rewrite <- IH.
    destruct (0 <? pending_increment c)%N; by rewrite Hrec.
  - destruct (export_counters server cs stats) as [s r] eqn:Hrec.
    cbn [fst]. by rewrite <- IH, Hrec.
Qed.

Lemma export_counters_gauges server cs stats :
  stats_gauges (foldl (export_counter server) stats cs) = stats_gauges stats.
Proof.
  revert stats. induction cs as [|c cs IH]; intros stats; [done|].
  cbn [foldl]. rewrite IH. unfold export_counter.
  destruct (counter_exported c); [|done].
  by rewrite recordDynamics_gauges.
Qed.

Lemma export_gauges_counter_deltas server gs stats :
  stats_counter_deltas (export_gauges server gs stats) =
  stats_counter_deltas stats.
Proof.
  revert stats. induction gs as [|g gs IH]; intros stats; [done|].
  cbn [export_gauges]. destruct (gauge_used g); rewrite IH; [|done].
  by rewrite recordDynamics_counter_deltas.
Qed.

Lemma export_gauges_dom server gs stats :
  dom (stats_gauges (export_gauges server gs stats)) =
  list_to_set (fst <$> exported_gauges gs) ∪ dom (stats_gauges stats).
Proof.
  revert stats. induction gs as [|g gs IH]; intros stats.
  { cbn. set_solver. }
  cbn [export_gauges exported_gauges flat_map].
  destruct (gauge_used g); rewrite IH.
  - rewrite recordDynamics_gauges. cbn [set_gauge stats_gauges].
    rewrite dom_insert_L. cbn. set_solver.
  - done.
Qed.

Lemma export_gauges_dynamics server gs stats :
  stats_dynamics (export_gauges server gs stats) =
  foldl (record_span server) (stats_dynamics stats) (exported_gauges gs).
Proof.
  revert stats. induction gs as [|g gs IH]; intros stats; [done|].
  cbn [export_gauges exported_gauges flat_map].
  destruct (gauge_used g); rewrite IH; [|done].
  by rewrite recordDynamics_dynamics.
Qed.

Lemma export_counters_dom server cs stats :
  dom (stats_counter_deltas (foldl (export_counter server) stats cs)) =
  list_to_set (fst <$> exported_counters cs) ∪ dom (stats_counter_deltas stats).
Proof.
  revert stats. induction cs as [|c cs IH]; intros stats.
  { cbn. set_solver. }
  cbn [foldl exported_counters flat_map]. rewrite IH. unfold export_counter.
  destruct (counter_exported c); [|done].
  rewrite recordDynamics_counter_deltas.
  cbn [set_counter_delta stats_counter_deltas].
  rewrite dom_insert_L. cbn. set_solver.
Qed.

Lemma export_counters_dynamics server cs stats :
  stats_dynamics (foldl (export_counter server) stats cs) =
  foldl (record_span server) (stats_dynamics stats) (exported_counters cs).
Proof.
  revert stats. induction cs as [|c cs IH]; intros stats; [done|].
  cbn [foldl exported_counters flat_map]. rewrite IH. unfold export_counter.
  destruct (counter_exported c); [|done].
  by rewrite recordDynamics_dynamics.
Qed.

(** A name no exported counter bears keeps its entry. *)
Lemma export_counters_deltas_other server cs stats n :
  (∀ c, c ∈ cs → counter_exported c = true → counter_name c ≠ n) →
  stats_counter_deltas (foldl (export_counter server) stats cs) !! n =
  stats_counter_deltas stats !! n.
Proof.
  revert stats. induction cs as [|c cs IH]; intros stats Hn; [done|].
  cbn [foldl]. rewrite IH by (intros c' ?; apply Hn; by right).
  unfold export_counter.
  destruct (counter_exported c) eqn:Hc; [|done].
  rewrite recordDynamics_counter_deltas.
  cbn [set_counter_delta stats_counter_deltas].
  apply lookup_insert_ne, Hn; [by left | done].
Qed.

(** Every entry was there before or is the latched value of an exported
    counter of that name. *)
Lemma export_counters_deltas_inv server cs stats n v :
  stats_counter_deltas (foldl (export_counter server) stats cs) !! n = Some v →
  stats_counter_deltas stats !! n = Some v ∨
  ∃ c, c ∈ cs ∧ counter_name c = n ∧ counter_exported c = true ∧
       v = fst (latch c).
Proof.
  revert stats. induction cs as [|c cs IH]; intros stats; [by left|].
  cbn [foldl]. intros [Hv|(c' & Hin & ?)]%IH;
    [|right; exists c'; split; [by right | done]].
  unfold export_counter in Hv.
  destruct (counter_exported c) eqn:Hc; [|by left].
  rewrite recordDynamics_counter_deltas in Hv.
  cbn [set_counter_delta stats_counter_deltas] in Hv.
  destruct (decide (counter_name c = n)) as [Heq|Hne].
  - rewrite Heq, lookup_insert_eq in Hv. right. exists c.
    split; [by left|]. split; [done|]. split; [done|]. congruence.
  - rewrite lookup_insert_ne in Hv by done. by left.
Qed.

Lemma export_counters_deltas_in server cs stats c :
  NoDup (counter_name <$> cs) → c ∈ cs → counter_exported c = true →
  stats_counter_deltas (foldl (export_counter server) stats cs)
    !! counter_name c = Some (fst (latch c)).
Proof.
  revert stats. induction cs as [|c0 cs IH]; intros stats Hnd Hin Hc.
  { by apply elem_of_nil in Hin. }
  rewrite fmap_cons in Hnd. apply NoDup_cons in Hnd as [Hfresh Hnd].
  cbn [foldl]. apply elem_of_cons in Hin as [<-|Hin]; [|by apply IH].
  rewrite export_counters_deltas_other.
  - unfold export_counter. rewrite Hc, recordDynamics_counter_deltas.
    cbn [set_counter_delta stats_counter_deltas]. apply lookup_insert_eq.
  - intros c' Hc' _ Heq. apply Hfresh. rewrite <- Heq.
    by apply list_elem_of_fmap_2.
Qed.

(** The stats of the reply, in terms of the two loops. *)
Lemma exportStatsToChild_fst server stats :
  let stats' := fst (exportStatsToChild server stats) in
  let loops := foldl (export_counter server)
                 (export_gauges server (gauges server) stats)
                 (counters server) in
  stats_gauges stats' = stats_gauges loops ∧
  stats_counter_deltas stats' = stats_counter_deltas loops ∧
  stats_dynamics stats' = stats_dynamics loops.
Proof.
  cbv zeta. unfold exportStatsToChild. rewrite <- export_counters_fst.
  by destruct (export_counters server (counters server) _).
Qed.

(** C6: with counters that bear pairwise different names, a counter has an
    entry in the exported counter deltas iff it is used and its latched
    value is positive, the entry is that latched value, and the map holds
    entries for counters only. *)
Theorem counter_delta_exported_iff (server : @Instance StatName) :
  NoDup (counter_name <$> counters server) →
  let deltas :=
    stats_counter_deltas (fst (exportStatsToChild server empty_stats)) in
  (∀ c, c ∈ counters server →
     (is_Some (deltas !! counter_name c) ↔
        counter_used c = true ∧ (0 < fst (latch c))%N) ∧
     (∀ v, deltas !! counter_name c = Some v → v = fst (latch c))) ∧
  (∀ n, is_Some (deltas !! n) →
     ∃ c, c ∈ counters server ∧ counter_name c = n).
Proof.
  intros Hnd. cbv zeta.
  destruct (exportStatsToChild_fst server empty_stats) as (_ & -> & _).
  assert (Hinv : ∀ n v,
    stats_counter_deltas
      (foldl (export_counter server)
         (export_gauges server (gauges server) empty_stats)
         (counters server)) !! n = Some v →
    ∃ c, c ∈ counters server ∧ counter_name c = n ∧
         counter_exported c = true ∧ v = fst (latch c)).
  { intros n v [Hv|Hv]%export_counters_deltas_inv; [|done].
    by rewrite export_gauges_counter_deltas in Hv. }
  assert (Hexp : ∀ c, counter_exported c = true ↔
    counter_used c = true ∧ (0 < fst (latch c))%N).
  { intros c. unfold counter_exported.
    rewrite andb_true_iff, N.ltb_lt. done. }
  split.
  - intros c Hc.
    assert (Hsame : ∀ c', c' ∈ counters server →
      counter_name c' = counter_name c → c' = c).
    { intros c' Hc' Heq.
      apply list_elem_of_lookup in Hc as [i Hi].
      apply list_elem_of_lookup in Hc' as [j Hj].
      assert (i = j) as ->; [|congruence].
      eapply NoDup_lookup; [exact Hnd| |];
        rewrite list_lookup_fmap;
        [by rewrite Hi | rewrite Hj; cbn; by rewrite Heq]. }
    split; [split|].
    + intros [v (c' & Hc' & Heq & Hex & _)%Hinv].
      apply Hsame in Heq as ->; [|done]. by apply Hexp.
    + intros Hex%Hexp. eexists. by apply export_counters_deltas_in.
    + intros v (c' & Hc' & Heq & _ & ->)%Hinv.
      by apply Hsame in Heq as ->.
  - intros n [v (c & Hc & Hn & _)%Hinv]. by exists c.
Qed.

(** *** Dynamic spans *)

Lemma record_all_lookup_inv server d l n v :
  foldl (record_span server) d l !! n = Some v →
  d !! n = Some v ∨
  ∃ s, (n, s) ∈ l ∧ getDynamicSpans server s ≠ [] ∧
       v = map span_proto (getDynamicSpans server s).
Proof.
  revert d. induction l as [|[n0 s0] l IH]; intros d; [by left|].
  cbn [foldl]. intros [Hv|(s & Hin & ?)]%IH;
    [|right; exists s; split; [by right | done]].
  unfold record_span in Hv. cbn [fst snd] in Hv.
  destruct (getDynamicSpans server s0) as [|sp sps] eqn:Hsp; [by left|].
  destruct (decide (n0 = n)) as [->|Hne].
  - rewrite lookup_insert_eq in Hv. right. exists s0.
    split; [by left|]. rewrite Hsp. split; [done | congruence].
  - rewrite lookup_insert_ne in Hv by done. by left.
Qed.

Lemma record_all_lookup_keep server d l n v :
  d !! n = Some v →
  (∀ s, (n, s) ∈ l → getDynamicSpans server s ≠ [] →
        map span_proto (getDynamicSpans server s) = v) →
  foldl (record_span server) d l !! n = Some v.
Proof.
  revert d. induction l as [|[n0 s0] l IH]; intros d Hd Hl; [done|].
  cbn [foldl]. apply IH; [|intros s ?; apply Hl; by right].
  unfold record_span. cbn [fst snd].
  destruct (getDynamicSpans server s0) as [|sp sps] eqn:Hsp; [done|].
  destruct (decide (n0 = n)) as [->|Hne].
  - rewrite lookup_insert_eq. f_equal. rewrite <- Hsp.
    apply Hl; [by left | by rewrite Hsp].
  - by rewrite lookup_insert_ne.
Qed.

Lemma record_all_lookup_in server d l n s :
  (n, s) ∈ l → getDynamicSpans server s ≠ [] →
  (∀ s', (n, s') ∈ l → getDynamicSpans server s' = getDynamicSpans server s) →
  foldl (record_span server) d l !! n =
    Some (map span_proto (getDynamicSpans server s)).
Proof.
  revert d. induction l as [|[n0 s0] l IH]; intros d Hin Hsp Hl.
  { by apply elem_of_nil in Hin. }
  cbn [foldl]. apply elem_of_cons in Hin as [[= <- <-]|Hin].
  - apply record_all_lookup_keep.
    + unfold record_span. cbn [fst snd].
      destruct (getDynamicSpans server s); [done | apply lookup_insert_eq].
    + intros s' Hs' _. rewrite Hl; [done | by right].
  - apply IH; [done | done | intros s' ?; apply Hl; by right].
Qed.

(** C9: when the symbol table gives the same spans to exported metrics
    that bear the same name, an exported metric name has an entry in the
    dynamic spans of the reply iff the symbol table gives it a non-empty
    list of spans, and the entry is that list; the names exported are the
    keys of the gauge and counter maps, and only they have entries. *)
Theorem dynamic_spans_iff_nonempty (server : @Instance StatName) :
  (∀ n s1 s2,
     (n, s1) ∈ exported_metrics server → (n, s2) ∈ exported_metrics server →
     getDynamicSpans server s1 = getDynamicSpans server s2) →
  let stats := fst (exportStatsToChild server empty_stats) in
  (∀ n s, (n, s) ∈ exported_metrics server →
     (is_Some (stats_dynamics stats !! n) ↔ getDynamicSpans server s ≠ []) ∧
     (∀ v, stats_dynamics stats !! n = Some v →
           v = map span_proto (getDynamicSpans server s))) ∧
  dom (stats_gauges stats) ∪ dom (stats_counter_deltas stats) =
    list_to_set (fst <$> exported_metrics server) ∧
  (∀ n, is_Some (stats_dynamics stats !! n) →
        ∃ s, (n, s) ∈ exported_metrics server).
Proof.
  intros Hco. cbv zeta.
  destruct (exportStatsToChild_fst server empty_stats) as (-> & -> & ->).
  rewrite export_counters_dynamics, export_gauges_dynamics, <- foldl_app.
  fold (exported_metrics server). cbn [empty_stats stats_dynamics].
  assert (Hinv : ∀ n v,
    foldl (record_span server) ∅ (exported_metrics server) !! n = Some v →
    ∃ s, (n, s) ∈ exported_metrics server ∧ getDynamicSpans server s ≠ [] ∧
         v = map span_proto (getDynamicSpans server s)).
  { by intros n v [?|?]%record_all_lookup_inv. }
  split; [|split].
  - intros n s Hin. split; [split|].
    + intros [v (s' & Hin' & Hsp & _)%Hinv]. by rewrite (Hco n s s').
    + intros Hsp. eexists.
      apply (record_all_lookup_in server ∅ _ n s); [done..|].
      intros s' Hin'. by apply (Hco n).
    + intros v (s' & Hin' & _ & ->)%Hinv. by rewrite (Hco n s s').
  - rewrite export_counters_gauges, export_gauges_dom.
    rewrite export_counters_dom, export_gauges_counter_deltas.
    unfold exported_metrics. rewrite fmap_app, list_to_set_app_L.
    cbn [empty_stats stats_gauges stats_counter_deltas].
    rewrite !dom_empty_L. set_solver.
  - intros n [v (s & Hin & _)%Hinv]. by exists s.
Qed.

End StatsExport.

(** * Worked instances *)

(** Worker 1 of 2 gets the fd of its listen socket; worker 2 and an address
    nobody listens on get -1. *)
Example demo_listen_socket :
  map (λ '(address, worker_index),
         pass_listen_socket_fd
           (getListenSocketsForChild demo_resolve (demo_server [])
              address worker_index))
    [("tcp://10.0.0.1:80"%string, 1%N); ("tcp://10.0.0.1:80"%string, 2%N);
     ("tcp://10.0.0.9:80"%string, 0%N)]
  = [Some 8%Z; Some (-1)%Z; Some (-1)%Z].
Proof. vm_compute. reflexivity. Qed.

(** A closed connection, a second connection on the same address pair and a
    connection that is not a [ConnectionImpl] are left out. *)
Example demo_scan :
  let cons :=
    [ demo_connection 0;
      {| connection_ := Some (demo_impl 1 false EmptyString) |};
      {| connection_ := Some (demo_impl 0 true "late") |};
      {| connection_ := None |};
      {| connection_ := Some (demo_impl 2 true "GET /") |} ] in
  pass_connection_socket
    (fst (getConnectionSocketsForChild (demo_server cons) ∅))
  = Some {| sockets := [ {| si_fd := 10; si_buffer := None |};
                         {| si_fd := 12; si_buffer := Some "GET /"%string |} ];
            has_more_fd := false |}.
Proof. vm_compute. reflexivity. Qed.

Example demo_stats :
  let stats := fst (exportStatsToChild (demo_server []) empty_stats) in
  (stats_gauges stats !! "cluster.web.active"%string,
   stats_gauges stats !! "server.idle"%string,
   stats_counter_deltas stats !! "http.rq_total"%string,
   stats_counter_deltas stats !! "http.rq_error"%string,
   stats_dynamics stats !! "cluster.web.active"%string,
   stats_dynamics stats !! "http.rq_total"%string,
   map pending_increment
     (counters (snd (exportStatsToChild (demo_server []) empty_stats))))
  = (Some 3%N, None, Some 5%N, None,
     Some [ {| span_first := 8; span_last := 10 |} ], None,
     [0%N; 0%N; 0%N]).
Proof. vm_compute. reflexivity. Qed.

(** A reply envelope sent to the parent is answered with the marker. *)
Lemma unrecognized_message_marker_witness :
  unrecognized (wrap_reply REPLY_NOT_SET) ∧
  handle_message demo_resolve demo_read (wrap_reply REPLY_NOT_SET)
    (demo_parent []) =
  (demo_parent [],
   [SendHotRestartMessage (child_address_ (demo_parent [])) didnt_recognize]).
Proof.
  assert (H : unrecognized (wrap_reply REPLY_NOT_SET))
    by (left; eexists; reflexivity).
  split; [exact H|].
  exact (proj1 (unrecognized_message_marker demo_resolve demo_read
                  (wrap_reply REPLY_NOT_SET) (demo_parent []) [] H)).
Defined.

(** Nothing is registered at the start, so any identifier is unknown. *)
Lemma connection_data_unknown_id_witness :
  handlers_ (demo_parent []) !! "10.0.0.1:80_00:4000"%string = None ∧
  handle_message demo_resolve demo_read
    (demo_request (kPassConnectionData "10.0.0.1:80_00:4000"))
    (demo_parent []) =
  (demo_parent [],
   [SendHotRestartMessage (child_address_ (demo_parent []))
      (wrap_reply (ReplyPassConnectionData
         {| connection_id := "10.0.0.1:80_00:4000";
            connection_data := None |}))]).
Proof.
  assert (H : handlers_ (demo_parent []) !! "10.0.0.1:80_00:4000"%string
              = None) by reflexivity.
  split; [exact H|].
  exact (proj2 (connection_data_unknown_id demo_resolve demo_read
                  (demo_parent []) "10.0.0.1:80_00:4000" false H)).
Defined.

(** For a DrainListeners request the parent sends nothing back, so the
    acknowledgment reply of C7 is not there. *)
Lemma drain_listeners_reply_counterexample :
  ¬ ∃ to m,
      SendHotRestartMessage to m ∈
        snd (handle_message demo_resolve demo_read
               (demo_request kDrainListeners) (demo_parent [])).
Proof.
  intros (to & m & H). cbn in H.
  apply list_elem_of_singleton in H. discriminate H.
Qed.

(** The demo counters bear different names. *)
Lemma counter_delta_exported_iff_witness :
  NoDup (counter_name <$> counters (demo_server [])) ∧
  ∀ c, c ∈ counters (demo_server []) →
    (is_Some (stats_counter_deltas
                (fst (exportStatsToChild (demo_server []) empty_stats))
                !! counter_name c) ↔
       counter_used c = true ∧ (0 < fst (latch c))%N) ∧
    (∀ v, stats_counter_deltas
            (fst (exportStatsToChild (demo_server []) empty_stats))
            !! counter_name c = Some v → v = fst (latch c)).
Proof.
  assert (H : NoDup (counter_name <$> counters (demo_server []))).
  { apply (bool_decide_unpack _). vm_compute. exact I. }
  split; [exact H|].
  exact (proj1 (counter_delta_exported_iff (demo_server []) H)).
Defined.

(** The two exported demo metrics bear different names. *)
Lemma dynamic_spans_iff_nonempty_witness :
  (∀ n s1 s2,
     (n, s1) ∈ exported_metrics (demo_server []) →
     (n, s2) ∈ exported_metrics (demo_server []) →
     getDynamicSpans (demo_server []) s1 =
     getDynamicSpans (demo_server []) s2) ∧
  ∀ n s, (n, s) ∈ exported_metrics (demo_server []) →
    (is_Some (stats_dynamics
                (fst (exportStatsToChild (demo_server []) empty_stats)) !! n)
     ↔ getDynamicSpans (demo_server []) s ≠ []) ∧
    (∀ v, stats_dynamics
            (fst (exportStatsToChild (demo_server []) empty_stats)) !! n
          = Some v →
          v = map span_proto (getDynamicSpans (demo_server []) s)).
Proof.
  assert (H : ∀ n s1 s2,
     (n, s1) ∈ exported_metrics (demo_server []) →
     (n, s2) ∈ exported_metrics (demo_server []) →
     getDynamicSpans (demo_server []) s1 =
     getDynamicSpans (demo_server []) s2).
  { intros n s1 s2 H1 H2.
    apply list_elem_of_In in H1. apply list_elem_of_In in H2.
    cbn in H1, H2.
    destruct H1 as [H1|[H1|[]]]; destruct H2 as [H2|[H2|[]]];
      congruence. }
  split; [exact H|].
  exact (proj1 (dynamic_spans_iff_nonempty (demo_server []) H)).
Defined.

(** A server with exactly [MAX_FD_SIZE] open connections. *)
Lemma full_batch_sets_flag_unchecked_witness :
  Z.of_nat
    (length (eligible (dom (∅ : gmap string IoHandle))
               (tracked_connections
                  (demo_server (map demo_connection (seq 0 100))))))
    = MAX_FD_SIZE ∧
  ∃ r1 r2,
    pass_connection_socket
      (fst (getConnectionSocketsForChild
              (demo_server (map demo_connection (seq 0 100))) ∅)) = Some r1 ∧
    pass_connection_socket
      (fst (getConnectionSocketsForChild
              (demo_server (map demo_connection (seq 0 100)))
              (snd (getConnectionSocketsForChild
                      (demo_server (map demo_connection (seq 0 100))) ∅))))
      = Some r2 ∧
    Z.of_nat (length (sockets r1)) = MAX_FD_SIZE ∧
    has_more_fd r1 = true ∧
    sockets r2 = [] ∧
    has_more_fd r2 = false.
Proof.
  assert (H : Z.of_nat
    (length (eligible (dom (∅ : gmap string IoHandle))
               (tracked_connections
                  (demo_server (map demo_connection (seq 0 100))))))
    = MAX_FD_SIZE) by (vm_compute; reflexivity).
  split; [exact H|].
  exact (proj1 (full_batch_sets_flag_unchecked
                  (demo_server (map demo_connection (seq 0 100))) ∅ H)).
Defined.

(** * Further properties *)

(** ** PassConnectionSocket: registry, repeated requests, read disabling *)

Section ScanRegistry.

Context {StatName : Type}.

Implicit Types (server : @Instance StatName).

Lemma register_all_lookup_other handlers scs k :
  k ∉ keys_of scs → register_all handlers scs !! k = handlers !! k.
Proof.
  revert handlers. induction scs as [|sc scs IH]; intros handlers Hk; [done|].
  rewrite keys_of_cons in Hk. cbn [register_all foldl].
  fold (register_all (register handlers sc) scs).
  rewrite IH by set_solver. unfold register.
  apply lookup_insert_ne. set_solver.
Qed.

Lemma register_all_lookup_in handlers scs sc :
  NoDup (connection_key <$> scs) → sc ∈ scs →
  register_all handlers scs !! connection_key sc = Some (ioHandle sc).
Proof.
  revert handlers. induction scs as [|sc0 scs IH]; intros handlers Hnd Hin.
  { by apply elem_of_nil in Hin. }
  rewrite fmap_cons in Hnd. apply NoDup_cons in Hnd as [Hfresh Hnd].
  cbn [register_all foldl]. fold (register_all (register handlers sc0) scs).
  apply elem_of_cons in Hin as [->|Hin]; [|by apply IH].
  rewrite register_all_lookup_other.
  - unfold register. apply lookup_insert_eq.
  - intros (sc' & Hsc' & Hkey)%elem_of_keys_of. apply Hfresh.
    rewrite <- Hkey. by apply list_elem_of_fmap_2.
Qed.

Lemma register_all_size handlers scs :
  NoDup (connection_key <$> scs) →
  (∀ sc, sc ∈ scs → connection_key sc ∉ dom handlers) →
  size (register_all handlers scs) = size handlers + length scs.
Proof.
  revert handlers. induction scs as [|sc0 scs IH]; intros handlers Hnd Hfresh.
  { cbn. lia. }
  rewrite fmap_cons in Hnd. apply NoDup_cons in Hnd as [Hsc0 Hnd].
  cbn [register_all foldl length].
  fold (register_all (register handlers sc0) scs).
  rewrite IH; [|done|].
  - unfold register. rewrite map_size_insert_None; [lia|].
    apply not_elem_of_dom, Hfresh. by left.
  - intros sc Hsc. rewrite dom_register.
    intros [Heq%elem_of_singleton|Hd]%elem_of_union.
    + apply Hsc0. rewrite <- Heq. by apply list_elem_of_fmap_2.
    + apply (Hfresh sc); [by right | done].
Qed.

(** X1: a scan registers exactly the connections it appends: the keys of
    the registry afterwards are the old ones and those of the appended
    connections, each appended connection is found under its key with its
    own handle, every other key maps to what it mapped before, and the
    registry grows by as many entries as the reply holds. *)
Theorem scan_registers_appended (server : @Instance StatName)
    (handlers : gmap string IoHandle) :
  let st := scan_connections server handlers in
  dom (st_handlers st) = dom handlers ∪ keys_of (st_added st) ∧
  (∀ sc, sc ∈ st_added st →
         st_handlers st !! connection_key sc = Some (ioHandle sc)) ∧
  (∀ k, k ∉ keys_of (st_added st) → st_handlers st !! k = handlers !! k) ∧
  size (st_handlers st) = size handlers + length (st_sockets st).
Proof.
  cbv zeta.
  destruct (scan_connections_spec server handlers) as (Hs & Ha & Hh & _).
  rewrite Hh, Hs, Ha. split; [|split; [|split]].
  - rewrite dom_register_all. set_solver.
  - intros sc Hsc. apply register_all_lookup_in; [|done].
    apply take_eligible_NoDup.
  - intros k Hk. by apply register_all_lookup_other.
  - rewrite length_map. apply register_all_size.
    + apply take_eligible_NoDup.
    + intros sc Hsc. by eapply take_eligible_fresh.
Qed.

(** A scan never changes what a registered key maps to. *)
Lemma scan_connections_lookup_mono server handlers k h :
  handlers !! k = Some h →
  st_handlers (scan_connections server handlers) !! k = Some h.
Proof.
  intros Hk.
  destruct (scan_connections_spec server handlers) as (_ & _ & Hh & _).
  rewrite Hh, register_all_lookup_other; [done|].
  intros (sc & Hsc & Hkey)%elem_of_keys_of.
  apply take_eligible_fresh in Hsc. apply Hsc. rewrite Hkey.
  apply elem_of_dom. eauto.
Qed.

Lemma run_scans_replicate_lookup server handlers k i st :
  run_scans (replicate k server) handlers !! i = Some st →
  let E := eligible (dom handlers) (tracked_connections server) in
  st_added st = take batch_size (drop (i * batch_size) E) ∧
  st_sockets st = map socket_info_of (st_added st) ∧
  st_has_more_fd st = bool_decide ((i + 1) * batch_size ≤ length E).
Proof.
  revert handlers i. induction k as [|k IH]; intros handlers i; [done|].
  cbn [replicate run_scans].
  destruct (scan_connections_spec server handlers) as (Hs & Ha & Hh & Hm).
  destruct i as [|i]; cbn [lookup list_lookup].
  - intros [= <-]. cbv zeta. rewrite Hs, Ha, Hm. cbn [Nat.mul drop].
    repeat split; done.
  - intros Hst. apply IH in Hst. cbv zeta in Hst.
    rewrite Hh, dom_register_all, eligible_drop in Hst.
    destruct Hst as (-> & -> & ->). cbv zeta.
    rewrite drop_drop, length_drop.
    replace (batch_size + i * batch_size) with (S i * batch_size) by lia.
    repeat split; try done. apply bool_decide_ext.
    change batch_size with 100. lia.
Qed.

Lemma run_scans_replicate_added server handlers k :
  flat_map st_added (run_scans (replicate k server) handlers) =
  take (k * batch_size) (eligible (dom handlers) (tracked_connections server)).
Proof.
  revert handlers. induction k as [|k IH]; intros handlers; [done|].
  cbn [replicate run_scans flat_map].
  destruct (scan_connections_spec server handlers) as (_ & Ha & Hh & _).
  rewrite IH, Ha, Hh, dom_register_all, eligible_drop.
  rewrite take_take_drop. f_equal.
Qed.

(** X2: when the request is repeated on the same connections, the i-th
    reply (from 0) holds the eligible connections number 100 i to
    100 i + 99 of the scan order, with the flag set iff at least
    100 (i + 1) were eligible at the start; so k requests export the first
    100 k eligible connections, in order, and all of them once 100 k
    exceeds their number. *)
Theorem repeated_requests_export_in_order (server : @Instance StatName)
    (handlers : gmap string IoHandle) (k : nat) :
  let E := eligible (dom handlers) (tracked_connections server) in
  let scans := run_scans (replicate k server) handlers in
  (∀ i st, scans !! i = Some st →
     st_sockets st =
       map socket_info_of (take batch_size (drop (i * batch_size) E)) ∧
     st_has_more_fd st = bool_decide ((i + 1) * batch_size ≤ length E)) ∧
  flat_map st_sockets scans = map socket_info_of (take (k * batch_size) E) ∧
  (length E < k * batch_size →
   flat_map st_sockets scans = map socket_info_of E).
Proof.
  cbv zeta.
  assert (Hall : flat_map st_sockets (run_scans (replicate k server) handlers)
    = map socket_info_of
        (take (k * batch_size)
           (eligible (dom handlers) (tracked_connections server)))).
  { rewrite <- run_scans_replicate_added.
    pose proof (run_scans_sockets (replicate k server) handlers) as Hf.
    induction Hf as [|st sts Hst _ IH]; [done|].
    cbn [flat_map]. by rewrite map_app, Hst, IH. }
  split; [|split; [done|]].
  - intros i st Hst. apply run_scans_replicate_lookup in Hst.
    cbv zeta in Hst. destruct Hst as (Ha & Hs & Hm). by rewrite Hs, Ha, Hm.
  - intros Hlt. rewrite Hall, take_ge by lia. done.
Qed.

(** X3: once a reply comes without the flag, the request repeated on the
    same connections gets an empty batch, again without the flag, and
    leaves the registry as it is. *)
Theorem scan_after_last_batch (server : @Instance StatName)
    (handlers : gmap string IoHandle) :
  st_has_more_fd (scan_connections server handlers) = false →
  let st := scan_connections server handlers in
  let st' := scan_connections server (st_handlers st) in
  st_sockets st' = [] ∧ st_has_more_fd st' = false ∧
  st_handlers st' = st_handlers st.
Proof.
  intros Hmore. cbv zeta.
  destruct (scan_connections_spec server handlers) as (_ & _ & Hh & Hm).
  rewrite Hm in Hmore. apply bool_decide_eq_false in Hmore.
  destruct (scan_connections_spec server
              (st_handlers (scan_connections server handlers)))
    as (Hs' & _ & Hh' & Hm').
  assert (Hrem : eligible (dom (st_handlers (scan_connections server handlers)))
                   (tracked_connections server) = []).
  { rewrite Hh, dom_register_all, eligible_drop. apply drop_ge. lia. }
  rewrite Hrem in Hs', Hh', Hm'. rewrite Hs', Hm', Hh'.
  rewrite take_nil. repeat split; try done.
Qed.

End ScanRegistry.

Section ScanReadDisable.

Context {StatName : Type}.

Lemma for_each_invariant {A S} (P : S → Prop) (body : A → S → Control S)
    (l : list A) (s : S) :
  (∀ x s, P s → P (control_state (body x s))) →
  P s → P (control_state (for_each body l s)).
Proof.
  intros Hbody. revert s. induction l as [|x l IH]; intros s Hs; [done|].
  cbn [for_each]. specialize (Hbody x s Hs).
  destruct (body x s) as [s'|s']; [by apply IH | done].
Qed.

(** What one visit does to a state, whichever way it ends. *)
Lemma visit_connection_state con st :
  control_state (visit_connection con st) = st ∨
  ∃ sc, connection_ con = Some sc ∧ isOpen (ioHandle sc) = true ∧
        (control_state (visit_connection con st) = disable_read st sc ∨
         ∃ more, control_state (visit_connection con st)
                 = add_socket st sc more).
Proof.
  destruct (connection_ con) as [sc|] eqn:Hcon;
    [|left; by rewrite visit_connection_not_impl].
  destruct (isOpen (ioHandle sc)) eqn:Hopen;
    [|left; by rewrite (visit_connection_closed con sc)].
  right. exists sc. split; [done|]. split; [done|].
  destruct (decide (connection_key sc ∈ dom (st_handlers st))).
  - left. by rewrite (visit_connection_registered con sc).
  - right. rewrite (visit_connection_fresh con sc) by done.
    case_bool_decide; by eexists.
Qed.

Lemma for_each_added_sublist cons st :
  st_added st `sublist_of` st_read_disabled st →
  st_added (control_state (for_each visit_connection cons st))
    `sublist_of`
  st_read_disabled (control_state (for_each visit_connection cons st)).
Proof.
  apply (for_each_invariant
           (λ st, st_added st `sublist_of` st_read_disabled st)).
  intros con st0 Hsub.
  destruct (visit_connection_state con st0)
    as [->|(sc & _ & _ & [->|[more ->]])]; [done| |].
  - by apply sublist_inserts_r.
  - by apply sublist_app.
Qed.

Lemma for_each_read_disabled cons st :
  let r := for_each visit_connection cons st in
  ∃ P, st_read_disabled (control_state r) = st_read_disabled st ++ P ∧
       P `prefix_of` open_connections cons ∧
       (is_return r = false → P = open_connections cons).
Proof.
  cbv zeta. revert st. induction cons as [|con rest IH]; intros st.
  { exists []. by rewrite app_nil_r. }
  cbn [for_each open_connections flat_map].
  fold (open_connections rest).
  assert (Hstep : ∀ st1 sc,
    st_read_disabled st1 = st_read_disabled st ++ [sc] →
    ∃ P, st_read_disabled
           (control_state (for_each visit_connection rest st1))
         = st_read_disabled st ++ P ∧
         P `prefix_of` [sc] ++ open_connections rest ∧
         (is_return (for_each visit_connection rest st1) = false →
          P = [sc] ++ open_connections rest)).
  { intros st1 sc Hst1. destruct (IH st1) as (P & HP & Hpre & Hall).
    exists (sc :: P). rewrite HP, Hst1, <- app_assoc.
    split; [done|]. split; [by apply prefix_cons|].
    intros Hr. by rewrite Hall. }
  destruct (connection_ con) as [sc|] eqn:Hcon;
    [|rewrite visit_connection_not_impl by done; apply IH].
  destruct (isOpen (ioHandle sc)) eqn:Hopen;
    [|rewrite (visit_connection_closed con sc) by done; apply IH].
  destruct (decide (connection_key sc ∈ dom (st_handlers st))).
  - rewrite (visit_connection_registered con sc) by done.
    by apply Hstep.
  - rewrite (visit_connection_fresh con sc) by done.
    case_bool_decide; [|by apply Hstep].
    exists [sc]. split; [done|]. split; [|done].
    apply prefix_cons, prefix_nil.
Qed.

(** X4: a scan disables reads on the open connections in scan order, those
    already registered included, up to the one that fills the batch: the
    connections read-disabled are a prefix of the open connections, the
    appended ones are among them in the same order, and a scan that ends
    without the flag has disabled reads on every open connection. *)
Theorem scan_read_disables_open_connections (server : @Instance StatName)
    (handlers : gmap string IoHandle) :
  let st := scan_connections server handlers in
  st_read_disabled st `prefix_of`
    open_connections (tracked_connections server) ∧
  st_added st `sublist_of` st_read_disabled st ∧
  (st_has_more_fd st = false →
   st_read_disabled st = open_connections (tracked_connections server)).
Proof.
  cbv zeta. rewrite scan_connections_flat.
  destruct (for_each_read_disabled (tracked_connections server)
              (scan_start handlers)) as (P & HP & Hpre & Hall).
  cbn [scan_start st_read_disabled app] in HP.
  split; [by rewrite HP|]. split.
  - apply for_each_added_sublist. cbn. constructor.
  - intros Hmore. rewrite HP. apply Hall.
    destruct (for_each_visit_connection (tracked_connections server)
                (scan_start handlers)) as (_ & _ & _ & Hm & _).
    { cbn. unfold batch_size, MAX_FD_SIZE. lia. }
    rewrite Hm in Hmore.
    by destruct (is_return (for_each visit_connection _ _)).
Qed.

End ScanReadDisable.

(** ** Stats export: gauges, latching, dynamic spans *)

Section StatsLatch.

Context {StatName : Type}.

Implicit Types (server : @Instance StatName) (c : @Counter StatName)
  (g : @Gauge StatName).

Lemma export_gauges_other server gs stats n :
  (∀ g, g ∈ gs → gauge_used g = true → gauge_name g ≠ n) →
  stats_gauges (export_gauges server gs stats) !! n = stats_gauges stats !! n.
Proof.
  revert stats. induction gs as [|g gs IH]; intros stats Hn; [done|].
  cbn [export_gauges].
  destruct (gauge_used g) eqn:Hg;
    rewrite IH by (intros g' ?; apply Hn; by right); [|done].
  rewrite recordDynamics_gauges. cbn [set_gauge stats_gauges].
  apply lookup_insert_ne, Hn; [by left | done].
Qed.

Lemma export_gauges_inv server gs stats n v :
  stats_gauges (export_gauges server gs stats) !! n = Some v →
  stats_gauges stats !! n = Some v ∨
  ∃ g, g ∈ gs ∧ gauge_name g = n ∧ gauge_used g = true ∧ v = gauge_value g.
Proof.
  revert stats. induction gs as [|g gs IH]; intros stats; [by left|].
  cbn [export_gauges].
  assert (Hrest : (∃ g', g' ∈ gs ∧ gauge_name g' = n ∧
                         gauge_used g' = true ∧ v = gauge_value g') →
                  ∃ g', g' ∈ g :: gs ∧ gauge_name g' = n ∧
                        gauge_used g' = true ∧ v = gauge_value g').
  { intros (g' & ? & ?). exists g'. split; [by right | done]. }
  destruct (gauge_used g) eqn:Hg.
  - intros [Hv|?]%IH; [|right; by apply Hrest].
    rewrite recordDynamics_gauges in Hv. cbn [set_gauge stats_gauges] in Hv.
    destruct (decide (gauge_name g = n)) as [Heq|Hne].
    + rewrite Heq, lookup_insert_eq in Hv. right. exists g.
      split; [by left|]. split; [done|]. split; [done | congruence].
    + rewrite lookup_insert_ne in Hv by done. by left.
  - intros [Hv|?]%IH; [by left | right; by apply Hrest].
Qed.

Lemma export_gauges_in server gs stats g :
  NoDup (gauge_name <$> gs) → g ∈ gs → gauge_used g = true →
  stats_gauges (export_gauges server gs stats) !! gauge_name g
    = Some (gauge_value g).
Proof.
  revert stats. induction gs as [|g0 gs IH]; intros stats Hnd Hin Hg.
  { by apply elem_of_nil in Hin. }
  rewrite fmap_cons in Hnd. apply NoDup_cons in Hnd as [Hfresh Hnd].
  cbn [export_gauges]. apply elem_of_cons in Hin as [<-|Hin].
  - rewrite Hg, export_gauges_other.
    + rewrite recordDynamics_gauges. cbn [set_gauge stats_gauges].
      apply lookup_insert_eq.
    + intros g' Hg' _ Heq. apply Hfresh. rewrite <- Heq.
      by apply list_elem_of_fmap_2.
  - destruct (gauge_used g0); by apply IH.
Qed.

(** X5: with gauges that bear pairwise different names, a gauge has an
    entry in the exported gauges iff it is used, the entry is its value, and
    the map holds entries for gauges only. *)
Theorem gauge_exported_iff_used (server : @Instance StatName) :
  NoDup (gauge_name <$> gauges server) →
  let exported :=
    stats_gauges (fst (exportStatsToChild server empty_stats)) in
  (∀ g, g ∈ gauges server →
     (is_Some (exported !! gauge_name g) ↔ gauge_used g = true) ∧
     (∀ v, exported !! gauge_name g = Some v → v = gauge_value g)) ∧
  (∀ n, is_Some (exported !! n) → ∃ g, g ∈ gauges server ∧ gauge_name g = n).
Proof.
  intros Hnd. cbv zeta.
  destruct (exportStatsToChild_fst server empty_stats) as (-> & _ & _).
  rewrite export_counters_gauges.
  assert (Hinv : ∀ n v,
    stats_gauges (export_gauges server (gauges server) empty_stats) !! n
      = Some v →
    ∃ g, g ∈ gauges server ∧ gauge_name g = n ∧ gauge_used g = true ∧
         v = gauge_value g).
  { by intros n v [?|?]%export_gauges_inv. }
  split.
  - intros g Hg.
    assert (Hsame : ∀ g', g' ∈ gauges server →
      gauge_name g' = gauge_name g → g' = g).
    { intros g' Hg' Heq.
      apply list_elem_of_lookup in Hg as [i Hi].
      apply list_elem_of_lookup in Hg' as [j Hj].
      assert (i = j) as ->; [|congruence].
      eapply NoDup_lookup; [exact Hnd| |];
        rewrite list_lookup_fmap;
        [by rewrite Hi | rewrite Hj; cbn; by rewrite Heq]. }
    split; [split|].
    + intros [v (g' & Hg' & Heq & Hused & _)%Hinv].
      by apply Hsame in Heq as ->.
    + intros Hused. eexists. by apply export_gauges_in.
    + intros v (g' & Hg' & Heq & _ & ->)%Hinv.
      by apply Hsame in Heq as ->.
  - intros n [v (g & Hg & Hn & _)%Hinv]. by exists g.
Qed.

Lemma export_counters_snd server (cs : list (@Counter StatName)) stats :
  snd (export_counters server cs stats) = map latch_if_used cs.
Proof.
  revert stats. induction cs as [|c cs IH]; intros stats; [done|].
  cbn [export_counters map]. unfold latch_if_used at 1.
  destruct (counter_used c); cbn [latch].
  - destruct (export_counters server cs _) as [s r] eqn:Hrec.
    cbn [snd]. f_equal. specialize (IH (if (0 <? pending_increment c)%N
      then recordDynamics server
             (set_counter_delta stats (counter_name c) (pending_increment c))
             (counter_name c) (counter_statName c)
      else stats)).
    by rewrite Hrec in IH.
  - destruct (export_counters server cs stats) as [s r] eqn:Hrec.
    cbn [snd]. f_equal. specialize (IH stats). by rewrite Hrec in IH.
Qed.

Lemma latch_if_used_not_exported c :
  counter_exported (latch_if_used c) = false.
Proof.
  unfold latch_if_used, counter_exported.
  destruct (counter_used c) eqn:Hc; cbn; [by rewrite Hc | by rewrite Hc].
Qed.

Lemma export_counters_none_exported server (cs : list (@Counter StatName))
    stats :
  (∀ c, c ∈ cs → counter_exported c = false) →
  foldl (export_counter server) stats cs = stats.
Proof.
  revert stats. induction cs as [|c cs IH]; intros stats Hcs; [done|].
  cbn [foldl]. unfold export_counter at 2.
  rewrite (Hcs c) by (by left). apply IH. intros c' ?. apply Hcs. by right.
Qed.

Lemma exportStatsToChild_snd server stats :
  snd (exportStatsToChild server stats) =
  set_counters server (map latch_if_used (counters server)).
Proof.
  unfold exportStatsToChild.
  pose proof (export_counters_snd server (counters server)
                (export_gauges server (gauges server) stats)) as H.
  destruct (export_counters server (counters server) _) as [s r].
  cbn [snd] in H |- *. by rewrite H.
Qed.

Lemma export_gauges_set_counters server cs gs stats :
  export_gauges (set_counters server cs) gs stats =
  export_gauges server gs stats.
Proof.
  revert stats. induction gs as [|g gs IH]; intros stats; [done|].
  cbn [export_gauges]. by destruct (gauge_used g); rewrite IH.
Qed.

(** X6: the stats export latches every used counter, also one with nothing
    pending, and leaves the unused counters and all else of the server as
    they were, whatever the stats message it fills held. *)
Theorem export_latches_used_counters (server : @Instance StatName)
    (stats : Stats) :
  snd (exportStatsToChild server stats) =
    set_counters server (map latch_if_used (counters server)) ∧
  (∀ c, c ∈ counters (snd (exportStatsToChild server stats)) →
        counter_used c = true → pending_increment c = 0%N).
Proof.
  split; [apply exportStatsToChild_snd|].
  rewrite exportStatsToChild_snd. cbn [set_counters counters].
  intros c (c0 & <- & _)%list_elem_of_In%in_map_iff.
  unfold latch_if_used. destruct (counter_used c0) eqn:Hc0; [done|].
  by rewrite Hc0.
Qed.

(** X7: a second stats export right after the first finds every counter
    latched: it exports no counter delta at all, and the same gauges as the
    first. *)
Theorem second_export_has_no_counter_deltas (server : @Instance StatName) :
  let first := exportStatsToChild server empty_stats in
  let second := exportStatsToChild (snd first) empty_stats in
  stats_counter_deltas (fst second) = ∅ ∧
  stats_gauges (fst second) = stats_gauges (fst first).
Proof.
  cbv zeta.
  destruct (exportStatsToChild_fst server empty_stats) as (Hg1 & _ & _).
  destruct (exportStatsToChild_fst
              (snd (exportStatsToChild server empty_stats)) empty_stats)
    as (Hg2 & Hc2 & _).
  rewrite Hc2, Hg2, Hg1, exportStatsToChild_snd.
  cbn [set_counters counters gauges].
  rewrite export_counters_none_exported.
  - rewrite export_gauges_set_counters, export_gauges_counter_deltas.
    by rewrite export_counters_gauges.
  - intros c (c0 & <- & _)%list_elem_of_In%in_map_iff.
    apply latch_if_used_not_exported.
Qed.

End StatsLatch.

Section StatsDynamics.

Context {StatName : Type}.

(** X8: dynamic spans are attached to exported names only, and never as an
    empty list: every key of the dynamic spans of the reply is a key of the
    exported gauges or counter deltas, and its entry is the non-empty list
    of spans the symbol table gives for an exported metric of that name,
    converted span by span in the same order. *)
Theorem dynamic_spans_only_for_exported (server : @Instance StatName) :
  let stats := fst (exportStatsToChild server empty_stats) in
  dom (stats_dynamics stats) ⊆
    dom (stats_gauges stats) ∪ dom (stats_counter_deltas stats) ∧
  ∀ n v, stats_dynamics stats !! n = Some v →
    v ≠ [] ∧
    ∃ s, (n, s) ∈ exported_metrics server ∧
         v = map span_proto (getDynamicSpans server s).
Proof.
  cbv zeta.
  destruct (exportStatsToChild_fst server empty_stats) as (-> & -> & ->).
  rewrite export_counters_dynamics, export_gauges_dynamics, <- foldl_app.
  fold (exported_metrics server). cbn [empty_stats stats_dynamics].
  rewrite export_counters_gauges, export_gauges_dom.
  rewrite export_counters_dom, export_gauges_counter_deltas.
  cbn [empty_stats stats_gauges stats_counter_deltas].
  assert (Hinv : ∀ n v,
    foldl (record_span server) ∅ (exported_metrics server) !! n = Some v →
    ∃ s, (n, s) ∈ exported_metrics server ∧ getDynamicSpans server s ≠ [] ∧
         v = map span_proto (getDynamicSpans server s)).
  { by intros n v [?|?]%record_all_lookup_inv. }
  split.
  - intros n [v (s & Hin & _)%Hinv]%elem_of_dom.
    unfold exported_metrics in Hin.
    apply elem_of_app in Hin as [Hin|Hin].
    + apply elem_of_union_l, elem_of_union_l, elem_of_list_to_set.
      by apply (list_elem_of_fmap_2 fst) in Hin.
    + apply elem_of_union_r, elem_of_union_l, elem_of_list_to_set.
      by apply (list_elem_of_fmap_2 fst) in Hin.
  - intros n v (s & Hin & Hsp & ->)%Hinv. split; [|by exists s].
    by destruct (getDynamicSpans server s).
Qed.

End StatsDynamics.

(** ** Dispatch: replies, calls on the server, state *)

Section DispatchLoop.

Context {StatName : Type}.
Variable resolveUrl : string → Address.
Variable io_read : IoHandle → string * bool.

Implicit Types (p : @HotRestartingParent StatName).

Lemma sent_messages_app effs1 effs2 :
  sent_messages (effs1 ++ effs2) = sent_messages effs1 ++ sent_messages effs2.
Proof. apply flat_map_app. Qed.

Lemma sent_messages_read_disable scs :
  sent_messages (map ReadDisable scs) = [].
Proof. by induction scs. Qed.

Lemma count_if_app {A} (f : A → bool) l1 l2 :
  count_if f (l1 ++ l2) = count_if f l1 + count_if f l2.
Proof. unfold count_if. by rewrite List.filter_app, length_app. Qed.

Lemma count_if_read_disable (f : Effect → bool) scs :
  (∀ sc, f (ReadDisable sc) = false) →
  count_if f (map ReadDisable scs) = 0.
Proof.
  intros Hf. unfold count_if. induction scs as [|sc scs IH]; [done|].
  cbn [map List.filter]. by rewrite Hf.
Qed.

Lemma onSocketEvent_cons m rest p :
  onSocketEvent resolveUrl io_read (m :: rest) p =
  (fst (onSocketEvent resolveUrl io_read rest
          (fst (handle_message resolveUrl io_read m p))),
   snd (handle_message resolveUrl io_read m p) ++
   snd (onSocketEvent resolveUrl io_read rest
          (fst (handle_message resolveUrl io_read m p)))).
Proof.
  cbn [onSocketEvent].
  destruct (handle_message resolveUrl io_read m p) as [p1 e1].
  cbn [fst snd]. by destruct (onSocketEvent resolveUrl io_read rest p1).
Qed.

(** X9: handling the messages of two wake-ups one after the other is
    handling them all in one: the state is threaded through, and the
    effects follow each other. *)
Theorem onSocketEvent_app (received1 received2 : list HotRestartMessage)
    (p : @HotRestartingParent StatName) :
  let first := onSocketEvent resolveUrl io_read received1 p in
  let second := onSocketEvent resolveUrl io_read received2 (fst first) in
  onSocketEvent resolveUrl io_read (received1 ++ received2) p =
  (fst second, snd first ++ snd second).
Proof.
  cbv zeta. revert p.
  induction received1 as [|m rest IH]; intros p.
  { cbn [app onSocketEvent fst snd].
    by destruct (onSocketEvent resolveUrl io_read received2 p). }
  rewrite <- app_comm_cons, !onSocketEvent_cons, IH. cbn [fst snd].
  by rewrite app_assoc.
Qed.

Ltac dispatch_cases m :=
  unfold handle_message, request;
  destruct m as [[[]|?|] ?]; cbn [requestreply]; cbv beta iota zeta;
  try match goal with
      | |- context [exportStatsToChild ?s ?e] =>
          destruct (exportStatsToChild s e)
      end;
  cbn [fst snd].

Lemma handle_message_child_address m p :
  child_address_ (fst (handle_message resolveUrl io_read m p))
  = child_address_ p.
Proof. by dispatch_cases m. Qed.

Lemma handle_message_sent m p :
  ∃ msgs,
    sent_messages (snd (handle_message resolveUrl io_read m p))
      = map (pair (child_address_ p)) msgs ∧
    length msgs = (if fire_and_forget m then 0 else 1) ∧
    Forall (λ msg,
              didnt_recognize_your_last_message msg = negb (known_request m) ∧
              (if known_request m
               then ∃ r, requestreply msg = kReply r
               else msg = didnt_recognize)) msgs.
Proof.
  dispatch_cases m;
    rewrite ?sent_messages_app, ?sent_messages_read_disable;
    cbn [sent_messages flat_map app];
    try (by exists (@nil HotRestartMessage));
    (eexists (cons _ nil); split; [reflexivity|]; split; [reflexivity|]);
    (apply Forall_cons; split; [|done]);
    try (unfold getConnectionDataForChild; destruct (handlers_ p !! _));
    (split; [reflexivity | cbn; first [reflexivity | eexists; reflexivity]]).
Qed.

(** X10: the parent answers each received envelope that is not a
    DrainListeners or Terminate request with exactly one message, in the
    order of the envelopes and always to the child's address; the answer to
    a request with a known operation is a reply without the marker, the
    answer to anything else is the bare marker message. *)
Theorem one_reply_per_answered_request (received : list HotRestartMessage)
    (p : @HotRestartingParent StatName) :
  Forall2
    (λ m (sent : Address * HotRestartMessage),
       fst sent = child_address_ p ∧
       didnt_recognize_your_last_message (snd sent)
         = negb (known_request m) ∧
       (if known_request m
        then ∃ r, requestreply (snd sent) = kReply r
        else snd sent = didnt_recognize))
    (List.filter (λ m, negb (fire_and_forget m)) received)
    (sent_messages (snd (onSocketEvent resolveUrl io_read received p))).
Proof.
  revert p. induction received as [|m rest IH]; intros p; [constructor|].
  rewrite onSocketEvent_cons. cbn [snd List.filter].
  rewrite sent_messages_app.
  specialize (IH (fst (handle_message resolveUrl io_read m p))).
  rewrite handle_message_child_address in IH.
  destruct (handle_message_sent m p) as (msgs & -> & Hlen & Hmsgs).
  destruct (fire_and_forget m); cbn [negb].
  - destruct msgs; [done | discriminate Hlen].
  - destruct msgs as [|msg [|? ?]]; try discriminate Hlen.
    apply Forall_cons in Hmsgs as [(Hflag & Hkind) _].
    cbn [map app]. by constructor.
Qed.

Lemma handle_message_counts m p :
  let effs := snd (handle_message resolveUrl io_read m p) in
  count_if is_kill effs = (if request_is is_terminate m then 1 else 0) ∧
  count_if is_server_drain_listeners effs
    = (if request_is is_drain_listeners m then 1 else 0) ∧
  count_if is_server_shutdown_admin effs
    = (if request_is is_shutdown_admin m then 1 else 0).
Proof.
  cbv zeta. dispatch_cases m;
    rewrite ?count_if_app, ?count_if_read_disable by done; by cbn.
Qed.

(** X11: the calls on the server and the process correspond one to one to
    the requests for them: as many termination signals as Terminate
    requests, as many listener drainings as DrainListeners requests, as
    many admin shutdowns as ShutdownAdmin requests; no other envelope
    causes any of them. *)
Theorem calls_match_requests (received : list HotRestartMessage)
    (p : @HotRestartingParent StatName) :
  let effs := snd (onSocketEvent resolveUrl io_read received p) in
  count_if is_kill effs = count_if (request_is is_terminate) received ∧
  count_if is_server_drain_listeners effs
    = count_if (request_is is_drain_listeners) received ∧
  count_if is_server_shutdown_admin effs
    = count_if (request_is is_shutdown_admin) received.
Proof.
  cbv zeta. revert p. induction received as [|m rest IH]; intros p; [done|].
  rewrite onSocketEvent_cons. cbn [snd]. rewrite !count_if_app.
  destruct (IH (fst (handle_message resolveUrl io_read m p)))
    as (-> & -> & ->).
  destruct (handle_message_counts m p) as (-> & -> & ->).
  unfold count_if. cbn [List.filter].
  destruct (request_is is_terminate m), (request_is is_drain_listeners m),
    (request_is is_shutdown_admin m); done.
Qed.

Lemma handle_message_handlers_mono m p k h :
  handlers_ p !! k = Some h →
  handlers_ (fst (handle_message resolveUrl io_read m p)) !! k = Some h.
Proof.
  intros Hk. dispatch_cases m; try done.
  cbn [with_handlers handlers_]. by apply scan_connections_lookup_mono.
Qed.

(** X12: the registry only grows: whatever envelopes are received, a key
    that is registered stays registered with the same handle. *)
Theorem registry_only_grows (received : list HotRestartMessage)
    (p : @HotRestartingParent StatName) (k : string) (h : IoHandle) :
  handlers_ p !! k = Some h →
  handlers_ (fst (onSocketEvent resolveUrl io_read received p)) !! k = Some h.
Proof.
  revert p. induction received as [|m rest IH]; intros p Hk; [done|].
  rewrite onSocketEvent_cons. cbn [fst].
  by apply IH, handle_message_handlers_mono.
Qed.





(** X15: an optional bytes field is never set to the empty string: no entry
    of a PassConnectionSocket reply has an empty buffer set, and a
    PassConnectionData reply, which always echoes the identifier of the
    request, never has empty connection data set. *)
Theorem no_empty_bytes_field :
  (∀ (server : @Instance StatName) handlers si,
     si ∈ st_sockets (scan_connections server handlers) →
     si_buffer si ≠ Some EmptyString) ∧
  (∀ (handlers : gmap string IoHandle) id,
     ∃ r, pass_connection_data
            (getConnectionDataForChild io_read handlers id) = Some r ∧
          connection_id r = id ∧
          connection_data r ≠ Some EmptyString).
Proof.
  assert (Hne : ∀ buf, (if (0 <? String.length buf)%nat
                        then Some buf else None) ≠ Some EmptyString).
  { intros buf. destruct buf; [done|]. cbn. congruence. }
  split.
  - intros server handlers si Hsi.
    destruct (scan_connections_spec server handlers) as (Hs & _).
    rewrite Hs in Hsi.
    apply list_elem_of_In, in_map_iff in Hsi as (sc & <- & _).
    apply Hne.
  - intros handlers id. unfold getConnectionDataForChild.
    destruct (handlers !! id) as [handler|]; eexists;
      (split; [reflexivity|]); cbn; (split; [done|]); [apply Hne | done].
Qed.

(** X16: a registered identifier can look unknown: when the registered
    handle is closed, or the read on it yields no bytes, the reply is the
    one an unregistered identifier gets. *)
Theorem connection_data_nothing_to_read (handlers : gmap string IoHandle)
    (id : string) (handler : IoHandle) :
  handlers !! id = Some handler →
  isOpen handler = false ∨ fst (io_read handler) = EmptyString →
  getConnectionDataForChild io_read handlers id =
  getConnectionDataForChild io_read ∅ id.
Proof.
  intros Hid Hnone. unfold getConnectionDataForChild.
  rewrite Hid, lookup_empty.
  destruct Hnone as [->|Hread]; [done|].
  by destruct (isOpen handler); rewrite ?Hread.
Qed.

(** X17: with a worker index below the concurrency, the PassListenSocket
    reply carries the fd of that worker's socket of the first listener, in
    listener order, that has the resolved address and binds to its port;
    listeners after it are not looked at. *)
Theorem listen_socket_first_match (server : @Instance StatName)
    (address : string) (worker_index : N)
    (before after : list ListenerConfig) (listener : ListenerConfig) :
  listeners server = before ++ listener :: after →
  (∀ l, l ∈ before → ¬ listener_matches (resolveUrl address) l) →
  listener_matches (resolveUrl address) listener →
  (worker_index < concurrency server)%N →
  pass_listen_socket_fd
    (getListenSocketsForChild resolveUrl server address worker_index)
  = Some (getListenSocket (listenSocketFactory listener) worker_index).
Proof.
  intros Hls Hbefore [Haddr Hbind] Hlt.
  unfold getListenSocketsForChild. cbn. f_equal. rewrite Hls. clear Hls.
  induction before as [|l before IH]; cbn [app listen_socket_loop].
  - rewrite bool_decide_eq_true_2, Hbind by done. cbn [andb].
    by rewrite (proj2 (N.ltb_lt _ _) Hlt).
  - destruct (bool_decide _) eqn:Hl; cbn [andb].
    + destruct (bindToPort l) eqn:Hb.
      * exfalso. apply (Hbefore l); [by left|].
        split; [by apply bool_decide_eq_true in Hl | done].
      * apply IH. intros l' ?. apply Hbefore. by right.
    + apply IH. intros l' ?. apply Hbefore. by right.
Qed.

End DispatchLoop.

(** ** DisableConnections *)

Section Disable.

Context {StatName : Type}.
Variable state : ConnectionImpl → ConnectionState.

Lemma flat_map_flat_map {A B C} (f : A → list B) (g : B → list C)
    (l : list A) :
  flat_map g (flat_map f l) = flat_map (λ x, flat_map g (f x)) l.
Proof.
  induction l as [|x l IH]; [done|].
  cbn [flat_map]. by rewrite flat_map_app, IH.
Qed.

Lemma filter_flat_map {A} (f : A → bool) (l : list A) :
  List.filter f l = flat_map (λ x, if f x then [x] else []) l.
Proof.
  induction l as [|x l IH]; [done|].
  cbn [List.filter flat_map]. rewrite IH. by destruct (f x).
Qed.

Lemma disabled_reads_connection con :
  disabled_reads (disable_connection state con) =
  List.filter (in_state_open state) (open_connections [con]).
Proof.
  unfold disable_connection, open_connections, in_state_open.
  cbn [flat_map]. destruct (connection_ con) as [sc|]; [|done].
  destruct (isOpen (ioHandle sc)); cbn; by destruct (state sc).
Qed.

Lemma disabled_reads_connections cons :
  disabled_reads (flat_map (disable_connection state) cons) =
  List.filter (in_state_open state) (open_connections cons).
Proof.
  induction cons as [|con cons IH]; [done|].
  cbn [flat_map]. unfold disabled_reads in *.
  rewrite flat_map_app, IH.
  pose proof (disabled_reads_connection con) as Hcon.
  unfold disabled_reads in Hcon. rewrite Hcon.
  unfold open_connections. cbn [flat_map].
  by rewrite app_nil_r, List.filter_app.
Qed.

Lemma paused_listeners_connections cons :
  paused_listeners (flat_map (disable_connection state) cons) = [].
Proof.
  induction cons as [|con cons IH]; [done|].
  cbn [flat_map]. unfold paused_listeners in *. rewrite flat_map_app, IH.
  unfold disable_connection. destruct (connection_ con) as [sc|]; [|done].
  destruct (state sc); [|done..]. by destruct (isOpen (ioHandle sc)).
Qed.

Lemma disable_listener_effects listenerPair :
  disabled_reads (disable_listener state listenerPair) =
    List.filter (in_state_open state)
      (open_connections (listener_connections listenerPair)) ∧
  paused_listeners (disable_listener state listenerPair) =
    match tcpListener (snd listenerPair) with
    | Some _ => [fst listenerPair]
    | None => []
    end.
Proof.
  unfold disable_listener, listener_connections.
  destruct (tcpListener (snd listenerPair)) as [tcp|]; [|done].
  rewrite <- (flat_map_flat_map
                (λ cont : N * ActiveConnections, connections_ (snd cont))
                (disable_connection state)).
  unfold disabled_reads, paused_listeners. rewrite !flat_map_app.
  fold (disabled_reads (flat_map (disable_connection state)
          (flat_map (λ cont : N * ActiveConnections, connections_ (snd cont))
             (connections_by_context_ tcp)))).
  fold (paused_listeners (flat_map (disable_connection state)
          (flat_map (λ cont : N * ActiveConnections, connections_ (snd cont))
             (connections_by_context_ tcp)))).
  rewrite disabled_reads_connections, paused_listeners_connections.
  cbn. by rewrite app_nil_r.
Qed.

(** X18: [disableConnections] stops reading from exactly the tracked
    connections that are [ConnectionImpl]s in state Open with an open
    handle, in scan order, and pauses every TCP listener of every worker
    once, in order, whether or not it has connections; UDP listeners are
    passed over. *)
Theorem disableConnections_effects (server : @Instance StatName) :
  disabled_reads (disableConnections state server) =
    List.filter (in_state_open state)
      (open_connections (tracked_connections server)) ∧
  paused_listeners (disableConnections state server) = tcp_listeners server.
Proof.
  unfold disableConnections, tracked_connections, tcp_listeners.
  induction (getWorkers server) as [|con_handler workers [IHr IHp]];
    [done|].
  cbn [flat_map]. unfold disabled_reads, paused_listeners in *.
  unfold open_connections in *.
  rewrite !flat_map_app, List.filter_app, IHr, IHp.
  split; f_equal.
  - unfold worker_connections.
    induction (getListeners con_handler) as [|lp lps IH]; [done|].
    cbn [flat_map]. rewrite !flat_map_app, List.filter_app, IH. f_equal.
    apply (disable_listener_effects lp).
  - induction (getListeners con_handler) as [|lp lps IH]; [done|].
    cbn [flat_map]. rewrite !flat_map_app, IH. f_equal.
    apply (disable_listener_effects lp).
Qed.

End Disable.

(** ** What is handed over does not depend on earlier requests *)

Section Stable.

Context {StatName : Type}.
Variable resolveUrl : string → Address.
Variable io_read : IoHandle → string * bool.



End Stable.

Section ScanSound.

Context {StatName : Type}.

(** X20: a scan appends nothing but open, unregistered connections of TCP
    listeners: every appended connection is a tracked [ConnectionImpl]
    whose handle is open and whose key was not in the registry the scan
    started with, and its entry in the reply carries its fd. *)
Theorem scan_appends_only_open_unregistered (server : @Instance StatName)
    (handlers : gmap string IoHandle) :
  let st := scan_connections server handlers in
  Forall (λ sc,
            (∃ con, con ∈ tracked_connections server ∧
                    connection_ con = Some sc) ∧
            isOpen (ioHandle sc) = true ∧
            connection_key sc ∉ dom handlers) (st_added st) ∧
  map si_fd (st_sockets st) = map (λ sc, fdDoNotUse (ioHandle sc)) (st_added st).
Proof.
  cbv zeta.
  destruct (scan_connections_spec server handlers) as (Hs & Ha & _).
  rewrite Hs, Ha. split.
  - apply Forall_forall. intros sc Hsc. split; [|split].
    + apply subseteq_take, eligible_sound in Hsc as (con & ? & ? & _).
      by exists con.
    + by apply subseteq_take, eligible_sound in Hsc as (con & _ & _ & ?).
    + by eapply take_eligible_fresh.
  - by rewrite map_map.
Qed.

End ScanSound.

(** * Further worked instances *)

(** One connection in state Open, one closing, one with a closed handle:
    reads stop on the first only, and the TCP listener is paused. *)
Example demo_disable_connections :
  disableConnections
    (λ sc, if bool_decide (fdDoNotUse (ioHandle sc) = 11%Z)
           then StateClosing else StateOpen)
    (demo_server [ demo_connection 0; demo_connection 1;
                   {| connection_ := Some (demo_impl 2 false EmptyString) |} ])
  = [ DisableRead (demo_impl 0 true EmptyString);
      PauseListening {| asString := "10.0.0.1:80" |} ].
Proof. vm_compute. reflexivity. Qed.

(** A scan over fewer connections than a batch holds ends without the
    flag. *)
Lemma scan_after_last_batch_witness :
  st_has_more_fd (scan_connections (server_ demo_parent_registered) ∅)
    = false ∧
  st_sockets
    (scan_connections (server_ demo_parent_registered)
       (st_handlers
          (scan_connections (server_ demo_parent_registered) ∅))) = [].
Proof.
  assert (H : st_has_more_fd
                (scan_connections (server_ demo_parent_registered) ∅)
              = false) by (vm_compute; reflexivity).
  split; [exact H|].
  exact (proj1 (scan_after_last_batch (server_ demo_parent_registered) ∅ H)).
Defined.

(** The demo gauges bear different names. *)
Lemma gauge_exported_iff_used_witness :
  NoDup (gauge_name <$> gauges (demo_server [])) ∧
  ∀ g, g ∈ gauges (demo_server []) →
    (is_Some (stats_gauges
                (fst (exportStatsToChild (demo_server []) empty_stats))
                !! gauge_name g) ↔ gauge_used g = true) ∧
    (∀ v, stats_gauges
            (fst (exportStatsToChild (demo_server []) empty_stats))
            !! gauge_name g = Some v → v = gauge_value g).
Proof.
  assert (H : NoDup (gauge_name <$> gauges (demo_server []))).
  { apply (bool_decide_unpack _). vm_compute. exact I. }
  split; [exact H|].
  exact (proj1 (gauge_exported_iff_used (demo_server []) H)).
Defined.

(** A registered key survives a scan and a stats export. *)
Lemma registry_only_grows_witness :
  handlers_ demo_parent_registered
    !! connection_key (demo_impl 7 false EmptyString)
    = Some (ioHandle (demo_impl 7 false EmptyString)) ∧
  handlers_
    (fst (onSocketEvent demo_resolve demo_read
            [demo_request kPassConnectionSocket; demo_request kStats]
            demo_parent_registered))
    !! connection_key (demo_impl 7 false EmptyString)
    = Some (ioHandle (demo_impl 7 false EmptyString)).
Proof.
  assert (H : handlers_ demo_parent_registered
                !! connection_key (demo_impl 7 false EmptyString)
              = Some (ioHandle (demo_impl 7 false EmptyString)))
    by (vm_compute; reflexivity).
  split; [exact H|].
  exact (registry_only_grows demo_resolve demo_read
           [demo_request kPassConnectionSocket; demo_request kStats]
           demo_parent_registered _ _ H).
Defined.


(** The registered demo connection is closed: its identifier is answered
    like an unknown one. *)
Lemma connection_data_nothing_to_read_witness :
  demo_registered !! connection_key (demo_impl 7 false EmptyString)
    = Some (ioHandle (demo_impl 7 false EmptyString)) ∧
  (isOpen (ioHandle (demo_impl 7 false EmptyString)) = false ∨
   fst (demo_read_late (ioHandle (demo_impl 7 false EmptyString)))
     = EmptyString) ∧
  getConnectionDataForChild demo_read_late demo_registered
    (connection_key (demo_impl 7 false EmptyString)) =
  getConnectionDataForChild demo_read_late ∅
    (connection_key (demo_impl 7 false EmptyString)).
Proof.
  assert (H1 : demo_registered
                 !! connection_key (demo_impl 7 false EmptyString)
               = Some (ioHandle (demo_impl 7 false EmptyString)))
    by (vm_compute; reflexivity).
  assert (H2 : isOpen (ioHandle (demo_impl 7 false EmptyString)) = false ∨
               fst (demo_read_late (ioHandle (demo_impl 7 false EmptyString)))
                 = EmptyString)
    by (left; reflexivity).
  split; [exact H1|]. split; [exact H2|].
  exact (connection_data_nothing_to_read demo_read_late demo_registered
           _ _ H1 H2).
Defined.

(** The demo listener is the first, and only, match for its address. *)
Lemma listen_socket_first_match_witness :
  listeners (demo_server []) = [] ++ demo_listener :: [] ∧
  listener_matches (demo_resolve "tcp://10.0.0.1:80") demo_listener ∧
  (1 < concurrency (demo_server []))%N ∧
  pass_listen_socket_fd
    (getListenSocketsForChild demo_resolve (demo_server [])
       "tcp://10.0.0.1:80" 1)
  = Some (getListenSocket (listenSocketFactory demo_listener) 1).
Proof.
  assert (H1 : listeners (demo_server []) = [] ++ demo_listener :: [])
    by reflexivity.
  assert (H2 : ∀ l, l ∈ @nil ListenerConfig →
                    ¬ listener_matches (demo_resolve "tcp://10.0.0.1:80") l)
    by (intros l Hl; by apply elem_of_nil in Hl).
  assert (H3 : listener_matches (demo_resolve "tcp://10.0.0.1:80")
                 demo_listener) by (split; reflexivity).
  assert (H4 : (1 < concurrency (demo_server []))%N) by reflexivity.
  split; [exact H1|]. split; [exact H3|]. split; [exact H4|].
  exact (listen_socket_first_match demo_resolve (demo_server [])
           "tcp://10.0.0.1:80" 1 [] [] demo_listener H1 H2 H3 H4).
Defined.
